(** * The juju status command: a shallow embedding of [status.go]

    The command joins three collections (machines and services of the
    state, instances of the environment) into one nested map and hands it
    to the output formatter.  Go maps become [gmap]s, the untyped
    [interface{}] values become the inductive [value], functions returning
    [(T, error)] become functions into [result T], and the unspecified
    order of [range] over a map is an explicit parameter. *)

From Stdlib Require Import Ascii.
From stdpp Require Import gmap strings list fin_maps pretty.

Local Open Scope Z_scope.
Local Set Warnings "-clear-no-such-hyp".

(** ** Values, errors, results *)

(** What the command stores behind [interface{}]: strings, booleans,
    [map[string]interface{}] and [map[int]interface{}]. *)
#[warnings="-register-all"]
Inductive value :=
| VString (s : string)
| VBool (b : bool)
| VStrMap (m : gmap string value)
| VIntMap (m : gmap Z value).

(** A non-nil [error].  The command inspects the dynamic type only to tell
    [NotFoundError] of package [state] from everything else. *)
Inductive error :=
| NotFoundError (msg : string)
| ErrorString (msg : string).

(** A Go return pair [(T, error)] of which at most one side is used. *)
Inductive result (A : Type) :=
| Ok (a : A)
| Fail (err : error).
Arguments Ok {A} a.
Arguments Fail {A} err.

Global Instance result_ret : MRet result := λ A a, Ok a.
Global Instance result_bind : MBind result := λ A B f x,
  match x with
  | Ok a => f a
  | Fail err => Fail err
  end.

Definition is_Ok {A} (x : result A) : Prop := ∃ a, x = Ok a.

(** [strconv.Itoa]: the decimal form of an integer, with a leading minus
    sign for negative numbers. *)
Definition Itoa (i : Z) : string := pretty i.

(** The decoding direction, [strconv.Atoi] on decimal input: an optional
    sign followed by at least one digit. *)
Definition digitValue (c : ascii) : option N :=
  if decide (c = "0"%char) then Some 0%N
  else if decide (c = "1"%char) then Some 1%N
  else if decide (c = "2"%char) then Some 2%N
  else if decide (c = "3"%char) then Some 3%N
  else if decide (c = "4"%char) then Some 4%N
  else if decide (c = "5"%char) then Some 5%N
  else if decide (c = "6"%char) then Some 6%N
  else if decide (c = "7"%char) then Some 7%N
  else if decide (c = "8"%char) then Some 8%N
  else if decide (c = "9"%char) then Some 9%N
  else None.

Fixpoint parseDigits (acc : N) (s : string) : option N :=
  match s with
  | EmptyString => Some acc
  | String c s =>
    match digitValue c with
    | Some d => parseDigits (10 * acc + d)%N s
    | None => None
    end
  end.

Definition parseUnsigned (s : string) : option N :=
  match s with
  | EmptyString => None
  | _ => parseDigits 0%N s
  end.

Definition Atoi (s : string) : option Z :=
  match s with
  | EmptyString => None
  | String c s' =>
    if decide (c = "-"%char) then Z.opp ∘ Z.of_N <$> parseUnsigned s'
    else if decide (c = "+"%char) then Z.of_N <$> parseUnsigned s'
    else Z.of_N <$> parseUnsigned s
  end.

(** ** The collaborators *)

(** Explicit status codes an agent can report, and their keywords. *)
Inductive Status := StatusPending | StatusStarted | StatusStopped | StatusError.

Definition statusKeyword (s : Status) : string :=
  match s with
  | StatusPending => "pending"
  | StatusStarted => "started"
  | StatusStopped => "stopped"
  | StatusError => "error"
  end.

(** Modelled from the spec: the version number of the agent tools, printed
    as a dotted string ([version.Number] is declared outside this
    repository). *)
Record Number := { Major : Z; Minor : Z; Patch : Z }.

Definition NumberString (n : Number) : string :=
  Itoa (Major n) +:+ "." +:+ Itoa (Minor n) +:+ "." +:+ Itoa (Patch n).

Module Instance.
(** Modelled from the spec: [environs.Instance], declared outside this
    repository.  An opaque identifier and a DNS name whose resolution may
    fail. *)
Record t := {
  Id : string;
  DNSName : result string
}.
End Instance.

Module Machine.
(** Modelled from the spec: [state.Machine], declared outside this
    repository.  [Id] is a Go [int], taken in [Z]: the command only stores
    and prints it.  [InstanceId] is the full Go return pair, since the
    command goes on to use the string after looking at the error.  [Status] and
    [AgentTools] are the data written by [SetStatus] and [SetAgentTools];
    [None] means that nothing was ever recorded. *)
Record t := {
  Id : Z;
  InstanceId : string * option error;
  AgentAlive : result bool;
  Status : option (Status * string);
  AgentTools : option Number
}.
End Machine.

Module Unit.
(** Modelled from the spec: [state.Unit], declared outside this
    repository. *)
Record t := {
  Name : string;
  AssignedMachineId : option Z;
  AgentAlive : result bool;
  Status : option (Status * string)
}.
End Unit.

Module Charm.
(** Modelled from the spec: [state.Charm], declared outside this
    repository.  [URL] is the identity string of the charm, [MetaName] is
    [Meta().Name]. *)
Record t := {
  URL : string;
  MetaName : string
}.
End Charm.

Module Service.
(** Modelled from the spec: [state.Service], declared outside this
    repository. *)
Record t := {
  Name : string;
  Charm : result Charm.t;
  IsExposed : result bool;
  AllUnits : result (list Unit.t)
}.
End Service.

(** Modelled from the spec: [environs.Environ], [state.State] and
    [juju.Conn], declared outside this repository. *)
Record Environ := {
  AllInstances : result (list Instance.t)
}.

Record State := {
  AllMachines : result (list Machine.t);
  AllServices : result (list Service.t)
}.

Record Conn := {
  ConnEnviron : Environ;
  ConnState : result State
}.

(** The order in which [range] visits a map.  Go leaves it unspecified; all
    that is known is that every entry is visited exactly once. *)
Record RangeOrder := {
  range : ∀ {K} `{Countable K} {V}, gmap K V → list (K * V);
  range_perm : ∀ K `{Countable K} V (m : gmap K V), range m ≡ₚ map_to_list m
}.

Definition keyOrder : RangeOrder :=
  {| range := λ K _ _ V m, map_to_list m;
     range_perm := λ K _ _ V m, reflexivity (map_to_list m) |}.

(** The opposite order, to compare two runs over the same map. *)
Definition reverseOrder : RangeOrder :=
  {| range := λ K _ _ V m, reverse (map_to_list m);
     range_perm := λ K _ _ V m, reverse_Permutation (map_to_list m) |}.

(** ** The fetchers *)

Definition fetchAllInstances (env : Environ) : result (gmap string Instance.t) :=
  let m := ∅ in
  insts ← AllInstances env;
  Ok (foldl (λ m i, <[Instance.Id i := i]> m) m insts).

Definition fetchAllMachines (st : State) : result (gmap Z Machine.t) :=
  let v := ∅ in
  machines ← AllMachines st;
  Ok (foldl (λ v m, <[Machine.Id m := m]> v) v machines).

Definition fetchAllServices (st : State) : result (gmap string Service.t) :=
  let v := ∅ in
  services ← AllServices st;
  Ok (foldl (λ v s, <[Service.Name s := s]> v) v services).

(** ** Machines *)

Definition processMachine (machine : Machine.t) (instance : Instance.t)
  : result (gmap string value) :=
  let r := ∅ in
  dnsname ← Instance.DNSName instance;
  let r := <["dns-name" := VString dnsname]> r in
  let r := <["instance-id" := VString (Instance.Id instance)]> r in
  alive ← Machine.AgentAlive machine;
  let r := if alive : bool then <["agent-state" := VString "running"]> r else r in
  Ok r.

(** The comma-ok type assertion of [err] to a [NotFoundError] pointer: the
    pointer when the dynamic type matches, otherwise the nil pointer and
    [false]. *)
Definition assertNotFound (err : option error) : option string * bool :=
  match err with
  | Some (NotFoundError msg) => (Some msg, true)
  | _ => (None, false)
  end.

Definition instanceNotFound (instid : string) (id : Z) : error :=
  ErrorString ("instance " +:+ instid +:+ " for machine " +:+ Itoa id +:+ " not found").

(** One iteration of the loop of [processMachines].  The [err] of the
    [if] statement shadows the one returned by [InstanceId] in every branch
    of the chain, so [else if err != nil] tests the asserted pointer. *)
Definition processMachinesStep (instances : gmap string Instance.t)
    (r : gmap Z value) (m : Machine.t) : result (gmap Z value) :=
  let '(instid, err) := Machine.InstanceId m in
  let '(err, ok) := assertNotFound err in
  if ok then
    Ok (<[Machine.Id m := VStrMap {[ "instance-id" := VString "pending" ]}]> r)
  else
    match err with
    | Some msg => Fail (NotFoundError msg)
    | None =>
      match instances !! instid with
      | None => Fail (instanceNotFound instid (Machine.Id m))
      | Some instance =>
        machine ← processMachine m instance;
        Ok (<[Machine.Id m := VStrMap machine]> r)
      end
    end.

Fixpoint processMachinesLoop (instances : gmap string Instance.t)
    (ms : list Machine.t) (r : gmap Z value) : result (gmap Z value) :=
  match ms with
  | [] => Ok r
  | m :: ms =>
    r ← processMachinesStep instances r m;
    processMachinesLoop instances ms r
  end.

Definition processMachines (rg : RangeOrder) (machines : gmap Z Machine.t)
    (instances : gmap string Instance.t) : result (gmap Z value) :=
  processMachinesLoop instances (range rg machines).*2 ∅.

(** ** Services *)

Definition processService (service : Service.t) : result (gmap string value) :=
  let r := ∅ in
  ch ← Service.Charm service;
  let r := <["charm" := VString (Charm.MetaName ch)]> r in
  exposed ← Service.IsExposed service;
  let r := <["exposed" := VBool exposed]> r in
  Ok r.

Fixpoint processServicesLoop (ss : list Service.t) (r : gmap string value)
  : result (gmap string value) :=
  match ss with
  | [] => Ok r
  | s :: ss =>
    e ← processService s;
    processServicesLoop ss (<[Service.Name s := VStrMap e]> r)
  end.

Definition processServices (rg : RangeOrder) (services : gmap string Service.t)
  : result (gmap string value) :=
  processServicesLoop (range rg services).*2 ∅.

(** ** Output *)

(** [jsonify]; [None] is the run-time panic of a failed type assertion. *)
Definition jsonify (rg : RangeOrder) (r : gmap string value)
  : option (gmap string (gmap string value)) :=
  match r !! "services" with
  | Some (VStrMap services) =>
    let m : gmap string (gmap string value) :=
      <["machines" := ∅]> (<["services" := services]> ∅) in
    match r !! "machines" with
    | Some (VIntMap machines) =>
      Some (foldl (λ m kv, alter (insert (Itoa kv.1) kv.2) "machines" m)
                  m (range rg machines))
    | _ => None
    end
  | _ => None
  end.

(** What [Run] hands to [c.out.Write]. *)
Inductive written :=
| Plain (r : gmap string value)
| Jsonified (m : gmap string (gmap string value)).

(** How [Run] ends: it returns an error of its own, it panics, or it
    returns whatever [c.out.Write] makes of the snapshot. *)
Inductive outcome :=
| Abort (err : error)
| Panic
| Emit (w : written).

Definition Run (rg : RangeOrder) (NewConn : result Conn) (outName : string) : outcome :=
  match NewConn with
  | Fail err => Abort err
  | Ok conn =>
  match fetchAllInstances (ConnEnviron conn) with
  | Fail err => Abort err
  | Ok instances =>
  match ConnState conn with
  | Fail err => Abort err
  | Ok state =>
  match fetchAllMachines state with
  | Fail err => Abort err
  | Ok machines =>
  match fetchAllServices state with
  | Fail err => Abort err
  | Ok services =>
  let result : gmap string value := ∅ in
  match processMachines rg machines instances with
  | Fail err => Abort err
  | Ok ms =>
  let result := <["machines" := VIntMap ms]> result in
  match processServices rg services with
  | Fail err => Abort err
  | Ok ss =>
  let result := <["services" := VStrMap ss]> result in
  if decide (outName = "json") then
    match jsonify rg result with
    | Some m => Emit (Jsonified m)
    | None => Panic
    end
  else Emit (Plain result)
  end end end end end end end.

(** ** Derived notions used in the statements *)

(** The status entry the loop of [processMachines] stores for one machine,
    or the error on which it returns: the loop body without the store. *)
Definition machineEntry (instances : gmap string Instance.t) (m : Machine.t)
  : result (gmap string value) :=
  match Machine.InstanceId m with
  | (_, Some (NotFoundError _)) => Ok {[ "instance-id" := VString "pending" ]}
  | (instid, _) =>
    match instances !! instid with
    | None => Fail (instanceNotFound instid (Machine.Id m))
    | Some instance => processMachine m instance
    end
  end.

(** A machine map whose keys are the ids of its machines, as
    [fetchAllMachines] builds it. *)
Definition keyedById (machines : gmap Z Machine.t) : Prop :=
  ∀ k m, machines !! k = Some m → Machine.Id m = k.

(** ** Scenarios of the test suite *)

(** The instance the dummy provider starts for machine [n]. *)
Definition dummyInstance (n : Z) : Instance.t :=
  {| Instance.Id := "dummyenv-" +:+ Itoa n;
     Instance.DNSName := Ok ("dummyenv-" +:+ Itoa n +:+ ".dns") |}.

(** A provisioned machine [n] of the dummy environment. *)
Definition startedMachine (n : Z) (alive : bool)
    (status : option (Status * string)) (tools : option Number) : Machine.t :=
  {| Machine.Id := n;
     Machine.InstanceId := ("dummyenv-" +:+ Itoa n, None);
     Machine.AgentAlive := Ok alive;
     Machine.Status := status;
     Machine.AgentTools := tools |}.

(** Machine 0 right after the provisioner started its instance: the agent
    is alive and nothing was reported yet. *)
Definition machineAlive : Machine.t := startedMachine 0 true None None.

(** Machine 3 of the suite: provisioned, agent dead, last report
    [stopped] with an info text. *)
Definition machineDown : Machine.t :=
  startedMachine 3 false (Some (StatusStopped, "Really?")) None.

(** Machine 0 once its agent recorded the tools 1.2.3. *)
Definition machineWithTools : Machine.t :=
  startedMachine 0 true (Some (StatusStarted, ""))
                 (Some {| Major := 1; Minor := 2; Patch := 3 |}).

(** Machine [n] before provisioning: reading the instance id signals
    "not found". *)
Definition pendingMachine (n : Z) : Machine.t :=
  {| Machine.Id := n;
     Machine.InstanceId := ("", Some (NotFoundError ("instance id for machine " +:+ Itoa n)));
     Machine.AgentAlive := Ok false;
     Machine.Status := None;
     Machine.AgentTools := None |}.

(** Machine 0 when the read of its instance id fails in the store. *)
Definition unreadableMachine : Machine.t :=
  {| Machine.Id := 0;
     Machine.InstanceId := ("", Some (ErrorString "cannot read instance id"));
     Machine.AgentAlive := Ok true;
     Machine.Status := None;
     Machine.AgentTools := None |}.

Definition dummyCharm : Charm.t :=
  {| Charm.URL := "local:series/dummy-1"; Charm.MetaName := "dummy" |}.

Definition dummyUnit : Unit.t :=
  {| Unit.Name := "dummy-service/0";
     Unit.AssignedMachineId := Some 1;
     Unit.AgentAlive := Ok false;
     Unit.Status := Some (StatusStarted, "") |}.

(** The service [dummy-service] with its one unit. *)
Definition dummyService : Service.t :=
  {| Service.Name := "dummy-service";
     Service.Charm := Ok dummyCharm;
     Service.IsExposed := Ok false;
     Service.AllUnits := Ok [dummyUnit] |}.

Definition connOf (insts : list Instance.t) (machines : list Machine.t)
    (services : list Service.t) : Conn :=
  {| ConnEnviron := {| AllInstances := Ok insts |};
     ConnState := Ok {| AllMachines := Ok machines; AllServices := Ok services |} |}.

(** Two provisioned machines of which the provider knows nothing. *)
Definition orphanConn : Conn :=
  connOf [] [startedMachine 1 true None None; startedMachine 2 true None None] [].

(** One provisioned machine of which the provider knows nothing. *)
Definition loneOrphanConn : Conn :=
  connOf [] [startedMachine 1 true None None] [].

(** The store fails to read the instance id of the only machine. *)
Definition unreadableConn : Conn := connOf [] [unreadableMachine] [].

(** The same, with a provider that lists an instance without identifier. *)
Definition unreadableConnBlank : Conn :=
  connOf [{| Instance.Id := ""; Instance.DNSName := Ok "blank.dns" |}]
         [unreadableMachine] [].

(** Machine 7 provisioned and alive, machine 8 pending. *)
Definition mixedConn : Conn :=
  connOf [dummyInstance 7] [startedMachine 7 true None None; pendingMachine 8] [].

(** * Properties *)

(** ** Decimal keys *)

Lemma digitValue_pretty_N_char (d : N) :
  (d < 10)%N → digitValue (pretty_N_char d) = Some d.
Proof.
  intros Hd.
  assert (d = 0 ∨ d = 1 ∨ d = 2 ∨ d = 3 ∨ d = 4 ∨ d = 5 ∨ d = 6 ∨ d = 7
          ∨ d = 8 ∨ d = 9)%N as Hcases by lia.
  repeat (destruct Hcases as [-> | Hcases]; [reflexivity |]).
  by subst.
Qed.

Lemma parseDigits_pretty_N_go (x : N) (s : string) :
  parseDigits 0 (pretty_N_go x s) = parseDigits x s.
Proof.
  revert s. induction (N.lt_wf_0 x) as [x _ IH]. intros s.
  destruct (decide (x = 0)%N) as [-> | Hx].
  - by rewrite pretty_N_go_0.
  - rewrite pretty_N_go_step by lia.
    rewrite IH by (apply N.div_lt; lia).
    cbn [parseDigits].
    rewrite digitValue_pretty_N_char by (apply N.mod_lt; lia).
    f_equal. pose proof (N.div_mod x 10). lia.
Qed.

Lemma parseUnsigned_pretty_pos (p : positive) :
  parseUnsigned (pretty (N.pos p)) = Some (N.pos p) ∧
  ∃ c s d, pretty (N.pos p) = String c s ∧ digitValue c = Some d.
Proof.
  assert (parseDigits 0 (pretty (N.pos p)) = Some (N.pos p)) as Hparse.
  { unfold pretty, pretty_N. rewrite decide_False by done.
    by rewrite parseDigits_pretty_N_go. }
  destruct (pretty (N.pos p)) as [| c s] eqn:Hs.
  - discriminate Hparse.
  - split; [exact Hparse |].
    cbn [parseDigits] in Hparse.
    destruct (digitValue c) as [d |] eqn:Hc; [| discriminate].
    by exists c, s, d.
Qed.

Lemma Atoi_Itoa (i : Z) : Atoi (Itoa i) = Some i.
Proof.
  destruct i as [| p | p]; [reflexivity | |].
  - change (Itoa (Z.pos p)) with (pretty (N.pos p)).
    destruct (parseUnsigned_pretty_pos p) as (Hparse & c & s & d & Hs & Hc).
    rewrite Hs in Hparse |- *. unfold Atoi.
    rewrite !decide_False; [by rewrite Hparse | |]; by intros ->.
  - change (Itoa (Z.neg p)) with (String "-" (pretty (N.pos p))).
    destruct (parseUnsigned_pretty_pos p) as (Hparse & _).
    unfold Atoi. rewrite decide_True by done. by rewrite Hparse.
Qed.

Global Instance Itoa_inj : Inj (=) (=) Itoa.
Proof.
  intros i j Hij. apply (f_equal Atoi) in Hij.
  rewrite !Atoi_Itoa in Hij. by injection Hij.
Qed.

(** ** Ranging over a map *)

Section range.
Context `{Countable K} {V : Type}.
Implicit Types (rg : RangeOrder) (m : gmap K V).

Lemma elem_of_range rg m k v : (k, v) ∈ range rg m ↔ m !! k = Some v.
Proof. by rewrite (range_perm rg), elem_of_map_to_list. Qed.

Lemma NoDup_fst_range rg m : NoDup (range rg m).*1.
Proof.
  rewrite (range_perm rg). apply NoDup_fst_map_to_list.
Qed.

Lemma elem_of_range_values rg m v :
  v ∈ (range rg m).*2 ↔ ∃ k, m !! k = Some v.
Proof.
  rewrite list_elem_of_fmap. split.
  - intros ([k v'] & -> & Hin). exists k. by apply elem_of_range in Hin.
  - intros (k & Hk). exists (k, v). by rewrite elem_of_range.
Qed.
End range.

(** ** The fetchers *)

Lemma foldl_insert_keyed (l : list Machine.t) (v : gmap Z Machine.t) :
  keyedById v →
  keyedById (foldl (λ v m, <[Machine.Id m := m]> v) v l).
Proof.
  revert v. induction l as [| m l IH]; intros v Hv; [done |].
  cbn [foldl]. apply IH. intros k m'.
  rewrite lookup_insert. case_decide; [by intros [= <-] | apply Hv].
Qed.

Lemma foldl_insert_dom (l : list Machine.t) (v : gmap Z Machine.t) :
  dom (foldl (λ v m, <[Machine.Id m := m]> v) v l)
  = dom v ∪ list_to_set (Machine.Id <$> l).
Proof.
  revert v. induction l as [| m l IH]; intros v; cbn [foldl].
  - set_solver.
  - rewrite IH, dom_insert_L. set_solver.
Qed.

Lemma fetchAllMachines_keyed (st : State) (machines : gmap Z Machine.t) :
  fetchAllMachines st = Ok machines → keyedById machines.
Proof.
  unfold fetchAllMachines. destruct (AllMachines st) as [l | err]; [| done].
  intros [= <-]. apply foldl_insert_keyed. intros k m. by rewrite lookup_empty.
Qed.

Lemma fetchAllMachines_dom (st : State) (l : list Machine.t)
    (machines : gmap Z Machine.t) :
  AllMachines st = Ok l → fetchAllMachines st = Ok machines →
  dom machines = list_to_set (Machine.Id <$> l).
Proof.
  unfold fetchAllMachines. intros ->. intros [= <-].
  rewrite foldl_insert_dom. set_solver.
Qed.

Lemma range_ids (rg : RangeOrder) (machines : gmap Z Machine.t) :
  keyedById machines →
  Machine.Id <$> (range rg machines).*2 = (range rg machines).*1.
Proof.
  intros Hkeyed.
  assert (Forall (λ kv, Machine.Id kv.2 = kv.1) (range rg machines)) as Hall.
  { apply Forall_forall. intros [k m] Hin. apply elem_of_range in Hin.
    by apply Hkeyed. }
  induction Hall as [| [k m] l Hkm _ IH]; [done |].
  cbn in *. by rewrite Hkm, IH.
Qed.

(** ** The machine loop *)

Lemma processMachinesStep_entry (instances : gmap string Instance.t)
    (r : gmap Z value) (m : Machine.t) :
  processMachinesStep instances r m
  = (e ← machineEntry instances m; Ok (<[Machine.Id m := VStrMap e]> r)).
Proof.
  unfold processMachinesStep, machineEntry.
  destruct (Machine.InstanceId m) as [instid [[msg | msg] |]]; cbn;
    [done | by destruct (instances !! instid) ..].
Qed.

Section machine_loop.
Variable instances : gmap string Instance.t.
Implicit Types (ms : list Machine.t) (r res : gmap Z value) (m : Machine.t).

Lemma processMachinesLoop_app ms1 ms2 r :
  processMachinesLoop instances (ms1 ++ ms2) r
  = (r' ← processMachinesLoop instances ms1 r;
     processMachinesLoop instances ms2 r').
Proof.
  revert r. induction ms1 as [| m ms1 IH]; intros r; [done |].
  cbn [app processMachinesLoop].
  destruct (processMachinesStep instances r m) as [r' | err]; cbn; [apply IH | done].
Qed.

Lemma processMachinesLoop_Ok_all ms r res :
  processMachinesLoop instances ms r = Ok res →
  Forall (λ m, is_Ok (machineEntry instances m)) ms.
Proof.
  revert r. induction ms as [| m ms IH]; intros r; [constructor |].
  cbn [processMachinesLoop]. rewrite processMachinesStep_entry.
  destruct (machineEntry instances m) as [e | err] eqn:He; cbn; [| done].
  intros Hloop. constructor; [by exists e | by eapply IH].
Qed.

Lemma processMachinesLoop_all_Ok ms r :
  Forall (λ m, is_Ok (machineEntry instances m)) ms →
  is_Ok (processMachinesLoop instances ms r).
Proof.
  intros Hall. revert r. induction Hall as [| m ms [e He] _ IH]; intros r.
  - by exists r.
  - cbn [processMachinesLoop]. rewrite processMachinesStep_entry, He. apply IH.
Qed.

Lemma processMachinesLoop_first_failure ms1 m ms2 r err :
  Forall (λ m, is_Ok (machineEntry instances m)) ms1 →
  machineEntry instances m = Fail err →
  processMachinesLoop instances (ms1 ++ m :: ms2) r = Fail err.
Proof.
  intros Hall Hm. rewrite processMachinesLoop_app.
  destruct (processMachinesLoop_all_Ok ms1 r Hall) as [r' ->]. cbn.
  by rewrite processMachinesStep_entry, Hm.
Qed.

Lemma processMachinesLoop_fails ms r m err :
  m ∈ ms → machineEntry instances m = Fail err →
  ∃ err', processMachinesLoop instances ms r = Fail err'.
Proof.
  intros Hin Hm.
  destruct (processMachinesLoop instances ms r) as [res | err'] eqn:Hloop;
    [| by exists err'].
  apply processMachinesLoop_Ok_all in Hloop.
  rewrite Forall_forall in Hloop. destruct (Hloop m Hin) as [e He]. congruence.
Qed.

Lemma processMachinesLoop_dom ms r res :
  processMachinesLoop instances ms r = Ok res →
  dom res = dom r ∪ list_to_set (Machine.Id <$> ms).
Proof.
  revert r. induction ms as [| m ms IH]; intros r; cbn [processMachinesLoop].
  - intros [= <-]. set_solver.
  - rewrite processMachinesStep_entry.
    destruct (machineEntry instances m) as [e | err]; cbn; [| done].
    intros Hloop. rewrite (IH _ Hloop), dom_insert_L. set_solver.
Qed.

Lemma processMachinesLoop_lookup_other ms r res k :
  processMachinesLoop instances ms r = Ok res →
  k ∉ Machine.Id <$> ms → res !! k = r !! k.
Proof.
  revert r. induction ms as [| m ms IH]; intros r; cbn [processMachinesLoop].
  - by intros [= <-].
  - rewrite processMachinesStep_entry.
    destruct (machineEntry instances m) as [e | err]; cbn; [| done].
    intros Hloop Hk. rewrite not_elem_of_cons in Hk.
    destruct Hk as [Hne Hk]. rewrite (IH _ Hloop Hk).
    by rewrite lookup_insert_ne.
Qed.

Lemma processMachinesLoop_lookup ms r res m :
  processMachinesLoop instances ms r = Ok res →
  NoDup (Machine.Id <$> ms) → m ∈ ms →
  ∃ e, machineEntry instances m = Ok e ∧ res !! Machine.Id m = Some (VStrMap e).
Proof.
  revert r. induction ms as [| m' ms IH]; intros r; cbn [processMachinesLoop].
  - intros _ _ Hin. by apply elem_of_nil in Hin.
  - rewrite processMachinesStep_entry.
    destruct (machineEntry instances m') as [e | err] eqn:He; cbn; [| done].
    rewrite NoDup_cons, elem_of_cons.
    intros Hloop [Hfresh Hnodup] [-> | Hin].
    + exists e. split; [done |].
      rewrite (processMachinesLoop_lookup_other _ _ _ _ Hloop Hfresh).
      by rewrite lookup_insert_eq.
    + by eapply IH.
Qed.
End machine_loop.

Section machines.
Variables (rg : RangeOrder) (machines : gmap Z Machine.t)
          (instances : gmap string Instance.t).
Hypothesis keyed : keyedById machines.

Lemma NoDup_range_ids : NoDup (Machine.Id <$> (range rg machines).*2).
Proof. rewrite range_ids by done. apply NoDup_fst_range. Qed.

Lemma processMachines_lookup res m :
  processMachines rg machines instances = Ok res →
  machines !! Machine.Id m = Some m →
  ∃ e, machineEntry instances m = Ok e ∧ res !! Machine.Id m = Some (VStrMap e).
Proof.
  intros Hres Hm. eapply processMachinesLoop_lookup; [exact Hres | |].
  - apply NoDup_range_ids.
  - apply elem_of_range_values. by exists (Machine.Id m).
Qed.

Lemma processMachines_dom res :
  processMachines rg machines instances = Ok res → dom res = dom machines.
Proof.
  intros Hres. rewrite (processMachinesLoop_dom _ _ _ _ Hres).
  rewrite range_ids by done. rewrite dom_empty_L, (left_id_L ∅ (∪)).
  apply set_eq. intros k.
  rewrite elem_of_list_to_set, list_elem_of_fmap, elem_of_dom. split.
  - intros ([k' m] & -> & Hin). apply elem_of_range in Hin. by exists m.
  - intros [m Hm]. exists (k, m). by rewrite elem_of_range.
Qed.
End machines.

Lemma processMachines_fails (rg : RangeOrder) (machines : gmap Z Machine.t)
    (instances : gmap string Instance.t) (k : Z) (m : Machine.t) (err : error) :
  machines !! k = Some m → machineEntry instances m = Fail err →
  ∃ err', processMachines rg machines instances = Fail err'.
Proof.
  intros Hm Herr. eapply processMachinesLoop_fails; [| exact Herr].
  apply elem_of_range_values. by exists k.
Qed.

(** ** The service loop *)

Lemma processService_Ok (s : Service.t) (e : gmap string value) :
  processService s = Ok e ↔
  ∃ ch exposed, Service.Charm s = Ok ch ∧ Service.IsExposed s = Ok exposed ∧
    e = <["exposed" := VBool exposed]> (<["charm" := VString (Charm.MetaName ch)]> ∅).
Proof.
  unfold processService.
  destruct (Service.Charm s) as [ch | err]; cbn;
    [destruct (Service.IsExposed s) as [exposed | err]; cbn |].
  - split; [intros [= <-]; by exists ch, exposed | by intros (? & ? & [= <-] & [= <-] & ->)].
  - split; [done | by intros (? & ? & _ & ? & _)].
  - split; [done | by intros (? & ? & ? & _)].
Qed.

(** ** Key normalisation *)

Lemma foldl_alter_machines (l : list (Z * value)) (acc : gmap string value)
    (base : gmap string (gmap string value)) :
  foldl (λ m kv, alter (insert (Itoa kv.1) kv.2) "machines" m)
        (<["machines" := acc]> base) l
  = <["machines" := foldl (λ acc kv, <[Itoa kv.1 := kv.2]> acc) acc l]> base.
Proof.
  revert acc. induction l as [| [k v] l IH]; intros acc; [done |].
  cbn [foldl]. by rewrite alter_insert_eq, IH.
Qed.

Lemma foldl_insert_list_to_map `{Countable K} {V} (l : list (K * V))
    (acc : gmap K V) :
  NoDup l.*1 →
  foldl (λ acc kv, <[kv.1 := kv.2]> acc) acc l = list_to_map l ∪ acc.
Proof.
  revert acc. induction l as [| [k v] l IH]; intros acc; cbn [foldl].
  - intros _. by rewrite list_to_map_nil, (left_id_L ∅ (∪)).
  - rewrite fmap_cons, NoDup_cons. intros [Hfresh Hnodup].
    rewrite IH by done. rewrite list_to_map_cons. cbn [fst snd].
    rewrite <-insert_union_l. symmetry. apply insert_union_r.
    by apply not_elem_of_list_to_map_1.
Qed.

Lemma foldl_insert_Itoa (rg : RangeOrder) (machines : gmap Z value) :
  foldl (λ acc kv, <[Itoa kv.1 := kv.2]> acc) ∅ (range rg machines)
  =@{gmap string value} kmap Itoa machines.
Proof.
  transitivity (foldl (λ (acc : gmap string value) kv, <[kv.1 := kv.2]> acc) ∅
                      (prod_map Itoa id <$> range rg machines)).
  { by rewrite foldl_fmap. }
  assert (NoDup (prod_map Itoa id <$> range rg machines).*1) as Hnodup.
  { assert ((prod_map Itoa id <$> range rg machines).*1
            = Itoa <$> (range rg machines).*1) as ->.
    { rewrite <-!list_fmap_compose. apply list_fmap_ext. by intros ? [] ?. }
    apply (NoDup_fmap_2 _), NoDup_fst_range. }
  rewrite foldl_insert_list_to_map by done.
  rewrite (right_id_L ∅ (∪)). unfold kmap.
  apply list_to_map_proper; [done |].
  apply fmap_Permutation, range_perm.
Qed.

Lemma jsonify_result (rg : RangeOrder) (ms : gmap Z value) (ss : gmap string value) :
  jsonify rg (<["services" := VStrMap ss]> (<["machines" := VIntMap ms]> ∅))
  = Some (<["machines" := kmap Itoa ms]> (<["services" := ss]> ∅)).
Proof.
  unfold jsonify. rewrite lookup_insert_eq.
  rewrite lookup_insert_ne by done. rewrite lookup_insert_eq.
  by rewrite foldl_alter_machines, foldl_insert_Itoa.
Qed.

Lemma jsonify_Some (rg : RangeOrder) (r : gmap string value)
    (ms : gmap Z value) (ss : gmap string value) :
  r !! "services" = Some (VStrMap ss) → r !! "machines" = Some (VIntMap ms) →
  jsonify rg r = Some (<["machines" := kmap Itoa ms]> (<["services" := ss]> ∅)).
Proof.
  intros Hss Hms. unfold jsonify. rewrite Hss, Hms.
  by rewrite foldl_alter_machines, foldl_insert_Itoa.
Qed.

(** ** The run as a whole *)

Lemma Run_Emit_inv (rg : RangeOrder) (NewConn : result Conn) (outName : string)
    (w : written) :
  Run rg NewConn outName = Emit w →
  ∃ conn instances st machines services ms ss,
    NewConn = Ok conn ∧
    fetchAllInstances (ConnEnviron conn) = Ok instances ∧
    ConnState conn = Ok st ∧
    fetchAllMachines st = Ok machines ∧
    fetchAllServices st = Ok services ∧
    processMachines rg machines instances = Ok ms ∧
    processServices rg services = Ok ss ∧
    w = if decide (outName = "json")
        then Jsonified (<["machines" := kmap Itoa ms]> (<["services" := ss]> ∅))
        else Plain (<["services" := VStrMap ss]> (<["machines" := VIntMap ms]> ∅)).
Proof.
  unfold Run. intros Hrun.
  destruct NewConn as [conn |]; [| done].
  destruct (fetchAllInstances (ConnEnviron conn)) as [instances |] eqn:?; [| done].
  destruct (ConnState conn) as [st |] eqn:?; [| done].
  destruct (fetchAllMachines st) as [machines |] eqn:?; [| done].
  destruct (fetchAllServices st) as [services |] eqn:?; [| done].
  destruct (processMachines rg machines instances) as [ms |] eqn:?; [| done].
  destruct (processServices rg services) as [ss |] eqn:?; [| done].
  exists conn, instances, st, machines, services, ms, ss.
  repeat (split; [done |]).
  cbv zeta in Hrun. rewrite jsonify_result in Hrun.
  destruct (decide (outName = "json")); by injection Hrun as <-.
Qed.

Lemma Run_no_panic (rg : RangeOrder) (NewConn : result Conn) (outName : string) :
  Run rg NewConn outName ≠ Panic.
Proof.
  unfold Run.
  destruct NewConn as [conn |]; [| done].
  destruct (fetchAllInstances (ConnEnviron conn)) as [instances |]; [| done].
  destruct (ConnState conn) as [st |]; [| done].
  destruct (fetchAllMachines st) as [machines |]; [| done].
  destruct (fetchAllServices st) as [services |]; [| done].
  destruct (processMachines rg machines instances) as [ms |]; [| done].
  destruct (processServices rg services) as [ss |]; [| done].
  cbv zeta. rewrite jsonify_result. by case_decide.
Qed.

(** X16: an error of the connection or of one of the fetches is the error
    of the run, in the order connection, instances, state, machines,
    services: a later failure is returned only when every earlier step
    succeeded. *)
Lemma Run_fetch_failures (rg : RangeOrder) (outName : string) (err : error) :
  Run rg (Fail err) outName = Abort err ∧
  (∀ conn, AllInstances (ConnEnviron conn) = Fail err →
           Run rg (Ok conn) outName = Abort err) ∧
  (∀ conn, is_Ok (AllInstances (ConnEnviron conn)) →
           ConnState conn = Fail err →
           Run rg (Ok conn) outName = Abort err) ∧
  (∀ conn st, is_Ok (AllInstances (ConnEnviron conn)) →
              ConnState conn = Ok st → AllMachines st = Fail err →
              Run rg (Ok conn) outName = Abort err) ∧
  (∀ conn st, is_Ok (AllInstances (ConnEnviron conn)) →
              ConnState conn = Ok st → is_Ok (AllMachines st) →
              AllServices st = Fail err →
              Run rg (Ok conn) outName = Abort err).
Proof.
  unfold Run, fetchAllInstances, fetchAllMachines, fetchAllServices.
  split; [done |]. split; [by intros conn -> |].
  split; [by intros conn [? ->] -> |].
  split; [by intros conn st [? ->] -> -> |].
  by intros conn st [? ->] -> [? ->] ->.
Qed.

Lemma Run_processMachines_Fail (rg : RangeOrder) (conn : Conn) (outName : string)
    (instances : gmap string Instance.t) (st : State)
    (machines : gmap Z Machine.t) (err : error) :
  fetchAllInstances (ConnEnviron conn) = Ok instances →
  ConnState conn = Ok st →
  fetchAllMachines st = Ok machines →
  processMachines rg machines instances = Fail err →
  ∃ err', Run rg (Ok conn) outName = Abort err' ∧
          (is_Ok (fetchAllServices st) → err' = err).
Proof.
  intros Hinsts Hst Hms Hfail. unfold Run. rewrite Hinsts, Hst, Hms.
  destruct (fetchAllServices st) as [services | err'].
  - rewrite Hfail. by exists err.
  - exists err'. split; [done |]. by intros [? ?].
Qed.

(** The shadowed [err]: a read of the instance id that fails with anything
    but "not found" is handled exactly like a read that succeeded with the
    string returned next to the error. *)
Lemma processMachinesStep_other_error (instances : gmap string Instance.t)
    (r : gmap Z value) (m : Machine.t) (instid msg : string) :
  Machine.InstanceId m = (instid, Some (ErrorString msg)) →
  processMachinesStep instances r m
  = match instances !! instid with
    | None => Fail (instanceNotFound instid (Machine.Id m))
    | Some instance =>
      machine ← processMachine m instance;
      Ok (<[Machine.Id m := VStrMap machine]> r)
    end.
Proof. unfold processMachinesStep. by intros ->. Qed.

Lemma processMachine_Ok (machine : Machine.t) (instance : Instance.t)
    (e : gmap string value) :
  processMachine machine instance = Ok e →
  ∃ dnsname alive,
    Instance.DNSName instance = Ok dnsname ∧
    Machine.AgentAlive machine = Ok alive ∧
    e = (if alive then insert "agent-state" (VString "running") else id)
          (<["instance-id" := VString (Instance.Id instance)]>
             (<["dns-name" := VString dnsname]> ∅)).
Proof.
  unfold processMachine.
  destruct (Instance.DNSName instance) as [dnsname |]; [| done].
  destruct (Machine.AgentAlive machine) as [alive |]; [| done].
  cbn. intros [= <-]. exists dnsname, alive. by destruct alive.
Qed.

Lemma processMachine_keys (machine : Machine.t) (instance : Instance.t)
    (e : gmap string value) :
  processMachine machine instance = Ok e →
  e !! "agent-state-info" = None ∧ e !! "agent-version" = None ∧
  (e !! "agent-state" = Some (VString "running")
   ∧ Machine.AgentAlive machine = Ok true
   ∨ e !! "agent-state" = None ∧ Machine.AgentAlive machine = Ok false).
Proof.
  intros (dnsname & alive & _ & -> & ->)%processMachine_Ok.
  destruct alive; repeat split; auto.
Qed.

(** The first steps of the test suite: an empty state, then machine 0
    added and not yet provisioned, in both output formats. *)
Example Run_empty_state :
  Run keyOrder (Ok (connOf [] [] [])) "yaml"
  = Emit (Plain (<["services" := VStrMap ∅]> (<["machines" := VIntMap ∅]> ∅))).
Proof. vm_compute. reflexivity. Qed.

Example Run_bootstrap_yaml :
  Run keyOrder (Ok (connOf [] [pendingMachine 0] [])) "yaml"
  = Emit (Plain (<["services" := VStrMap ∅]>
                   (<["machines" := VIntMap
                        {[ 0 := VStrMap {[ "instance-id" := VString "pending" ]} ]}]>
                      ∅))).
Proof. vm_compute. reflexivity. Qed.

Example Run_bootstrap_json :
  Run keyOrder (Ok (connOf [] [pendingMachine 0] [])) "json"
  = Emit (Jsonified
            (<["machines" := {[ "0" := VStrMap {[ "instance-id" := VString "pending" ]} ]}]>
               (<["services" := ∅]> ∅))).
Proof. vm_compute. reflexivity. Qed.

(** * The claims *)

(** ** Agent state of a machine *)

(** What the code does for a live agent: with the DNS name resolved, the
    entry is the DNS name, the instance id and the constant "running"
    under agent-state; the explicit status of the machine is not read. *)
Theorem processMachine_alive_running (machine : Machine.t)
    (instance : Instance.t) (dnsname : string) :
  Instance.DNSName instance = Ok dnsname →
  Machine.AgentAlive machine = Ok true →
  ∃ e, processMachine machine instance = Ok e ∧
       e !! "agent-state" = Some (VString "running") ∧
       e = <["agent-state" := VString "running"]>
             (<["instance-id" := VString (Instance.Id instance)]>
                (<["dns-name" := VString dnsname]> ∅)).
Proof.
  intros Hdns Halive. unfold processMachine. rewrite Hdns, Halive. cbn.
  eexists. split; [done |]. split; [apply lookup_insert_eq | done].
Qed.

Lemma processMachine_alive_running_witness :
  Machine.Status machineAlive = None ∧
  ∃ e, processMachine machineAlive (dummyInstance 0) = Ok e ∧
       e !! "agent-state" = Some (VString "running") ∧
       e = <["agent-state" := VString "running"]>
             (<["instance-id" := VString "dummyenv-0"]>
                (<["dns-name" := VString "dummyenv-0.dns"]> ∅)).
Proof.
  split; [reflexivity |].
  apply (processMachine_alive_running machineAlive (dummyInstance 0)
           "dummyenv-0.dns"); reflexivity.
Defined.

(** C1: the code at machine 0 of the test suite right after its instance
    was started (instance resolved, agent alive, no status ever reported).
    The entry has agent-state "running", the constant the code writes for
    every live agent, and not "started". *)
Lemma alive_machine_not_started :
  Instance.DNSName (dummyInstance 0) = Ok "dummyenv-0.dns" ∧
  Machine.AgentAlive machineAlive = Ok true ∧
  Machine.Status machineAlive = None ∧
  ∃ e, processMachine machineAlive (dummyInstance 0) = Ok e ∧
       e !! "agent-state" = Some (VString "running") ∧
       e !! "agent-state" ≠ Some (VString "started").
Proof.
  repeat (split; [reflexivity |]).
  eexists. split; [reflexivity |]. split; [reflexivity |].
  vm_compute. discriminate.
Qed.

(** C2: the code at machine 3 of the test suite (instance resolved, agent
    not alive, last report "stopped" with info "Really?").  The entry holds
    the DNS name and the instance id only: no agent-state "down" and no
    agent-state-info. *)
Theorem dead_agent_entry_has_no_state :
  Machine.AgentAlive machineDown = Ok false ∧
  Machine.Status machineDown = Some (StatusStopped, "Really?") ∧
  ∃ e, processMachine machineDown (dummyInstance 3) = Ok e ∧
       e = <["instance-id" := VString "dummyenv-3"]>
             (<["dns-name" := VString "dummyenv-3.dns"]> ∅) ∧
       e !! "agent-state" = None ∧
       e !! "agent-state-info" = None.
Proof.
  repeat (split; [reflexivity |]).
  eexists. repeat split; reflexivity.
Qed.

(** C9: the code at machine 0 of the test suite once the tools 1.2.3 are
    recorded.  The entry has no agent-version key. *)
Theorem recorded_tools_not_reported :
  NumberString <$> Machine.AgentTools machineWithTools = Some "1.2.3" ∧
  ∃ e, processMachine machineWithTools (dummyInstance 0) = Ok e ∧
       e = <["agent-state" := VString "running"]>
             (<["instance-id" := VString "dummyenv-0"]>
                (<["dns-name" := VString "dummyenv-0.dns"]> ∅)) ∧
       e !! "agent-version" = None.
Proof.
  split; [reflexivity |].
  eexists. repeat split; reflexivity.
Qed.

(** ** Machines without an instance *)

(** C4: a machine whose instance-id read signals "not found" never makes
    the loop return an error; the loop stores for it the one-key entry
    [{instance-id: "pending"}], and that is the entry of the machine in
    every result of [processMachines]. *)
Theorem pending_machine_entry (rg : RangeOrder) (st : State)
    (machines : gmap Z Machine.t) (instances : gmap string Instance.t)
    (m : Machine.t) (instid msg : string) :
  fetchAllMachines st = Ok machines →
  machines !! Machine.Id m = Some m →
  Machine.InstanceId m = (instid, Some (NotFoundError msg)) →
  (∀ r, processMachinesStep instances r m
        = Ok (<[Machine.Id m := VStrMap {[ "instance-id" := VString "pending" ]}]> r)) ∧
  (∀ res, processMachines rg machines instances = Ok res →
          res !! Machine.Id m = Some (VStrMap {[ "instance-id" := VString "pending" ]})) ∧
  dom ({[ "instance-id" := VString "pending" ]} : gmap string value)
  = {[ "instance-id" ]}.
Proof.
  intros Hfetch Hm Hid. split; [| split].
  - intros r. unfold processMachinesStep. by rewrite Hid.
  - intros res Hres.
    destruct (processMachines_lookup rg machines instances
                (fetchAllMachines_keyed _ _ Hfetch) res m Hres Hm) as (e & He & ->).
    unfold machineEntry in He. rewrite Hid in He. by injection He as <-.
  - apply dom_singleton_L.
Qed.

Lemma pending_machine_entry_witness :
  ∃ res,
    processMachines keyOrder {[ 7 := startedMachine 7 true None None;
                                8 := pendingMachine 8 ]}
                    {[ "dummyenv-7" := dummyInstance 7 ]} = Ok res ∧
    res !! 8 = Some (VStrMap {[ "instance-id" := VString "pending" ]}).
Proof.
  destruct (pending_machine_entry keyOrder
              {| AllMachines := Ok [startedMachine 7 true None None; pendingMachine 8];
                 AllServices := Ok [] |}
              {[ 7 := startedMachine 7 true None None; 8 := pendingMachine 8 ]}
              {[ "dummyenv-7" := dummyInstance 7 ]} (pendingMachine 8)
              "" "instance id for machine 8")
    as (_ & Hentry & _); [vm_compute; reflexivity ..|].
  eexists. split; [vm_compute; reflexivity |].
  apply Hentry. vm_compute. reflexivity.
Defined.

(** ** Machines whose instance the provider does not know *)

(** C3, as amended: when the fetches succeed and some machine has a
    recorded instance id that the instance index lacks, the run returns an
    error and writes nothing.  The error is the one of the first machine,
    in the order of the range, on which the loop fails; when that machine
    is this one, it is the inconsistency error carrying its instance id
    and its machine id. *)
Theorem missing_instance_aborts (rg : RangeOrder) (conn : Conn) (st : State)
    (instances : gmap string Instance.t) (machines : gmap Z Machine.t)
    (outName : string) (k : Z) (m : Machine.t) (instid : string) :
  fetchAllInstances (ConnEnviron conn) = Ok instances →
  ConnState conn = Ok st →
  fetchAllMachines st = Ok machines →
  machines !! k = Some m →
  Machine.InstanceId m = (instid, None) →
  instances !! instid = None →
  (∃ err, Run rg (Ok conn) outName = Abort err) ∧
  (∀ ms1 ms2,
     is_Ok (fetchAllServices st) →
     (range rg machines).*2 = ms1 ++ m :: ms2 →
     Forall (λ m', is_Ok (machineEntry instances m')) ms1 →
     Run rg (Ok conn) outName
     = Abort (ErrorString ("instance " +:+ instid +:+ " for machine "
                           +:+ Itoa (Machine.Id m) +:+ " not found"))).
Proof.
  intros Hinsts Hst Hms Hm Hid Habsent.
  assert (machineEntry instances m = Fail (instanceNotFound instid (Machine.Id m)))
    as Hentry.
  { unfold machineEntry. by rewrite Hid, Habsent. }
  split.
  - destruct (processMachines_fails rg machines instances k m _ Hm Hentry)
      as [err Herr].
    destruct (Run_processMachines_Fail rg conn outName _ _ _ _ Hinsts Hst Hms Herr)
      as (err' & -> & _).
    by exists err'.
  - intros ms1 ms2 Hservices Hsplit Hbefore.
    assert (processMachines rg machines instances
            = Fail (instanceNotFound instid (Machine.Id m))) as Herr.
    { unfold processMachines. rewrite Hsplit.
      by apply processMachinesLoop_first_failure. }
    destruct (Run_processMachines_Fail rg conn outName _ _ _ _ Hinsts Hst Hms Herr)
      as (err' & -> & Heq).
    by rewrite (Heq Hservices).
Qed.

Lemma missing_instance_aborts_witness :
  Run keyOrder (Ok loneOrphanConn) "yaml"
  = Abort (ErrorString "instance dummyenv-1 for machine 1 not found").
Proof.
  pose proof (missing_instance_aborts keyOrder loneOrphanConn
                {| AllMachines := Ok [startedMachine 1 true None None];
                   AllServices := Ok [] |}
                ∅ {[ 1 := startedMachine 1 true None None ]} "yaml" 1
                (startedMachine 1 true None None) "dummyenv-1"
                eq_refl eq_refl eq_refl eq_refl eq_refl eq_refl) as [_ Hfirst].
  apply (Hfirst [] []); [by eexists | reflexivity | constructor].
Defined.

(** Whatever the order of the range, the run on [orphanConn] returns one
    error, the one of the machine visited first. *)
Lemma orphans_abort_any_order (rg : RangeOrder) (outName : string) :
  ∃ err, Run rg (Ok orphanConn) outName = Abort err ∧
         (err = instanceNotFound "dummyenv-1" 1 ∨
          err = instanceNotFound "dummyenv-2" 2).
Proof.
  set (m1 := startedMachine 1 true None None).
  set (m2 := startedMachine 2 true None None).
  set (machines := <[2 := m2]> (<[1 := m1]> (∅ : gmap Z Machine.t))).
  assert (∃ err, processMachines rg machines ∅ = Fail err ∧
                 (err = instanceNotFound "dummyenv-1" 1 ∨
                  err = instanceNotFound "dummyenv-2" 2)) as (err & Herr & Hor).
  { unfold processMachines.
    destruct ((range rg machines).*2) as [| m ms] eqn:Hrange.
    - assert (m1 ∈ (range rg machines).*2) as Hin
        by (apply elem_of_range_values; by exists 1).
      rewrite Hrange in Hin. by apply elem_of_nil in Hin.
    - assert (m ∈ (range rg machines).*2) as Hin
        by (rewrite Hrange; apply list_elem_of_here).
      apply elem_of_range_values in Hin as [k Hk]. unfold machines in Hk.
      rewrite !lookup_insert_Some, lookup_empty in Hk.
      cbn [processMachinesLoop]. rewrite processMachinesStep_entry.
      destruct Hk as [[_ <-] | [_ [[_ <-] | [_ ?]]]]; [| | done];
        eexists; (split; [reflexivity |]); auto. }
  destruct (Run_processMachines_Fail rg orphanConn outName ∅
              {| AllMachines := Ok [m1; m2]; AllServices := Ok [] |}
              machines err eq_refl eq_refl eq_refl Herr) as (err' & Hrun & Heq).
  exists err. split; [| done]. rewrite Hrun. f_equal. apply Heq. by eexists.
Qed.

(** C3 as stated fails: machines 1 and 2 both record an instance id that
    the provider does not list; the run returns the error of machine 2,
    which names neither machine 1 nor its instance. *)
Lemma second_orphan_not_named :
  AllInstances (ConnEnviron orphanConn) = Ok [] ∧
  ConnState orphanConn
  = Ok {| AllMachines := Ok [startedMachine 1 true None None;
                             startedMachine 2 true None None];
          AllServices := Ok [] |} ∧
  Machine.InstanceId (startedMachine 1 true None None) = ("dummyenv-1", None) ∧
  Run keyOrder (Ok orphanConn) "yaml"
  = Abort (ErrorString "instance dummyenv-2 for machine 2 not found") ∧
  Run keyOrder (Ok orphanConn) "yaml"
  ≠ Abort (ErrorString "instance dummyenv-1 for machine 1 not found").
Proof.
  repeat (split; [vm_compute; reflexivity |]).
  vm_compute. discriminate.
Qed.

(** ** One entry per machine *)

(** C10: when the run reaches the formatter, the keys of the machines
    mapping it hands over are exactly the ids of the machines the store
    listed (their decimal forms in the string-keyed representation), and
    with distinct ids there are as many entries as machines. *)
Theorem Run_machines_exact (rg : RangeOrder) (NewConn : result Conn)
    (outName : string) (w : written) :
  Run rg NewConn outName = Emit w →
  ∃ conn st l,
    NewConn = Ok conn ∧ ConnState conn = Ok st ∧ AllMachines st = Ok l ∧
    match w with
    | Plain r =>
      ∃ ms, r !! "machines" = Some (VIntMap ms) ∧
            dom ms = list_to_set (Machine.Id <$> l) ∧
            (NoDup (Machine.Id <$> l) → size ms = length l)
    | Jsonified j =>
      ∃ jm, j !! "machines" = Some jm ∧
            dom jm = list_to_set ((λ m, Itoa (Machine.Id m)) <$> l) ∧
            (NoDup (Machine.Id <$> l) → size jm = length l)
    end.
Proof.
  intros Hrun.
  destruct (Run_Emit_inv _ _ _ _ Hrun)
    as (conn & instances & st & machines & services & ms & ss
        & -> & _ & Hst & Hfetch & _ & Hms & _ & ->).
  destruct (AllMachines st) as [l |] eqn:Hl;
    [| unfold fetchAllMachines in Hfetch; by rewrite Hl in Hfetch].
  exists conn, st, l. repeat (split; [done |]).
  assert (dom ms = list_to_set (Machine.Id <$> l)) as Hdom.
  { rewrite (processMachines_dom rg machines instances
               (fetchAllMachines_keyed _ _ Hfetch) ms Hms).
    by apply (fetchAllMachines_dom st). }
  assert (NoDup (Machine.Id <$> l) → size ms = length l) as Hsize.
  { intros Hnodup. rewrite <-size_dom, Hdom, size_list_to_set by done.
    by rewrite length_fmap. }
  case_decide.
  - exists (kmap Itoa ms). split; [by rewrite lookup_insert_eq |]. split.
    + rewrite dom_kmap_L, Hdom by apply _. apply set_eq. intros s.
      rewrite elem_of_map, elem_of_list_to_set, list_elem_of_fmap.
      setoid_rewrite elem_of_list_to_set. setoid_rewrite list_elem_of_fmap.
      naive_solver.
    + intros Hnodup. rewrite <-(Hsize Hnodup).
      rewrite <-!length_map_to_list, (map_to_list_kmap Itoa).
      apply length_fmap.
  - exists ms. split; [| done].
    rewrite lookup_insert_ne by done. by rewrite lookup_insert_eq.
Qed.

Lemma Run_machines_exact_witness :
  ∃ conn st l,
    Ok mixedConn = Ok conn ∧ ConnState conn = Ok st ∧ AllMachines st = Ok l ∧
    ∃ ms,
      (<["services" := VStrMap ∅]>
         (<["machines" := VIntMap
              (<[8 := VStrMap {[ "instance-id" := VString "pending" ]}]>
                 {[ 7 := VStrMap
                      (<["agent-state" := VString "running"]>
                         (<["instance-id" := VString "dummyenv-7"]>
                            (<["dns-name" := VString "dummyenv-7.dns"]> ∅))) ]})]>
            (∅ : gmap string value))) !! "machines" = Some (VIntMap ms) ∧
      dom ms = list_to_set (Machine.Id <$> l) ∧
      (NoDup (Machine.Id <$> l) → size ms = length l).
Proof.
  apply (Run_machines_exact keyOrder (Ok mixedConn) "yaml" (Plain _)).
  vm_compute. reflexivity.
Defined.

(** ** Services *)

(** The entry of a service never has keys other than charm and exposed. *)
Lemma processService_dom (s : Service.t) (e : gmap string value) :
  processService s = Ok e → dom e = {[ "charm"; "exposed" ]}.
Proof.
  intros (ch & exposed & _ & _ & ->)%processService_Ok.
  rewrite !dom_insert_L. set_solver.
Qed.

(** C5: the code at the service dummy-service of the test suite, which has
    the unit dummy-service/0.  Its entry holds the keys charm and exposed
    only; there is no units key although the service has a unit. *)
Theorem service_units_not_reported :
  Service.AllUnits dummyService = Ok [dummyUnit] ∧
  ∃ e, processService dummyService = Ok e ∧
       e = <["exposed" := VBool false]> (<["charm" := VString "dummy"]> ∅) ∧
       e !! "units" = None.
Proof.
  split; [reflexivity |].
  eexists. repeat split; reflexivity.
Qed.

(** C6: the code at the same service, whose charm has the identity
    "local:series/dummy-1" and the name "dummy".  The key charm holds the
    name, not the identity; the key exposed holds the exposure flag. *)
Theorem service_charm_is_meta_name :
  Service.Charm dummyService = Ok dummyCharm ∧
  Charm.URL dummyCharm = "local:series/dummy-1" ∧
  Charm.MetaName dummyCharm = "dummy" ∧
  ∃ e, processService dummyService = Ok e ∧
       e !! "charm" = Some (VString "dummy") ∧
       e !! "charm" ≠ Some (VString "local:series/dummy-1") ∧
       e !! "exposed" = Some (VBool false).
Proof.
  repeat (split; [reflexivity |]).
  eexists. split; [reflexivity |]. repeat split. vm_compute. discriminate.
Qed.

(** ** Failing collaborators *)

(** C7: the code at a store whose read of the instance id of machine 0
    fails with "cannot read instance id".  With a provider that lists no
    instance the run returns another error, the inconsistency error for an
    empty instance id; with a provider that lists an instance without
    identifier the run hands a snapshot to the formatter. *)
Theorem instance_id_failure_not_returned :
  Machine.InstanceId unreadableMachine
  = ("", Some (ErrorString "cannot read instance id")) ∧
  Run keyOrder (Ok unreadableConn) "yaml"
  = Abort (ErrorString "instance  for machine 0 not found") ∧
  Run keyOrder (Ok unreadableConnBlank) "yaml"
  = Emit (Plain (<["services" := VStrMap ∅]>
                   (<["machines" := VIntMap
                        {[ 0 := VStrMap
                             (<["agent-state" := VString "running"]>
                                (<["instance-id" := VString ""]>
                                   (<["dns-name" := VString "blank.dns"]> ∅))) ]}]>
                      ∅))).
Proof. repeat split; vm_compute; reflexivity. Qed.

(** ** Key normalisation *)

(** C8: [jsonify] keeps the services mapping as it is and moves every
    machine entry, unchanged, from its integer id to the decimal form of
    that id; no other key appears, and decoding a key gives the id back.
    Machine id 7 becomes the key "7", which decodes to 7. *)
Theorem jsonify_keys (rg : RangeOrder) (r : gmap string value)
    (ms : gmap Z value) (ss : gmap string value) :
  r !! "services" = Some (VStrMap ss) →
  r !! "machines" = Some (VIntMap ms) →
  ∃ j jm,
    jsonify rg r = Some j ∧
    j !! "services" = Some ss ∧
    j !! "machines" = Some jm ∧
    dom j = {[ "services"; "machines" ]} ∧
    (∀ k, jm !! Itoa k = ms !! k) ∧
    (∀ s v, jm !! s = Some v → ∃ k, Atoi s = Some k ∧ s = Itoa k ∧ ms !! k = Some v) ∧
    (∀ k, Atoi (Itoa k) = Some k) ∧
    Itoa 7 = "7" ∧ Atoi "7" = Some 7 ∧ jm !! "7" = ms !! 7.
Proof.
  intros Hss Hms.
  exists (<["machines" := kmap Itoa ms]> (<["services" := ss]> ∅)), (kmap Itoa ms).
  split; [by apply jsonify_Some |].
  split; [by rewrite lookup_insert_ne, lookup_insert_eq |].
  split; [by rewrite lookup_insert_eq |].
  split; [rewrite !dom_insert_L; set_solver |].
  split; [intros k; apply (lookup_kmap Itoa) |].
  split.
  { intros s v (k & -> & Hk)%(lookup_kmap_Some Itoa).
    exists k. by rewrite Atoi_Itoa. }
  split; [apply Atoi_Itoa |].
  repeat (split; [reflexivity |]).
  apply (lookup_kmap Itoa ms 7).
Qed.

Lemma jsonify_keys_witness :
  ∃ j jm,
    jsonify keyOrder
            (<["services" := VStrMap ∅]>
               (<["machines" := VIntMap
                    {[ 7 := VStrMap {[ "instance-id" := VString "pending" ]} ]}]> ∅))
    = Some j ∧
    j !! "machines" = Some jm ∧
    jm !! "7" = Some (VStrMap {[ "instance-id" := VString "pending" ]}).
Proof.
  destruct (jsonify_keys keyOrder
              (<["services" := VStrMap ∅]>
                 (<["machines" := VIntMap
                      {[ 7 := VStrMap {[ "instance-id" := VString "pending" ]} ]}]> ∅))
              {[ 7 := VStrMap {[ "instance-id" := VString "pending" ]} ]} ∅)
    as (j & jm & Hj & _ & Hjm & _ & _ & _ & _ & _ & _ & H7);
    [vm_compute; reflexivity | vm_compute; reflexivity |].
  exists j, jm. repeat (split; [assumption |]).
  rewrite H7. reflexivity.
Defined.

(** * Further properties of the command *)

(** ** Indexing a listing *)

Section index.
Context `{Countable K} {A : Type} (key : A → K).
Implicit Types (l : list A) (acc : gmap K A).

Lemma foldl_index_fresh l acc k :
  k ∉ key <$> l → foldl (λ m x, <[key x := x]> m) acc l !! k = acc !! k.
Proof.
  revert acc. induction l as [| x l IH]; intros acc Hk; [done |].
  rewrite fmap_cons, not_elem_of_cons in Hk. destruct Hk as [Hne Hk].
  cbn [foldl]. rewrite IH by done. by rewrite lookup_insert_ne.
Qed.

Lemma foldl_index_last l1 x l2 acc :
  key x ∉ key <$> l2 →
  foldl (λ m x, <[key x := x]> m) acc (l1 ++ x :: l2) !! key x = Some x.
Proof.
  intros Hfresh. rewrite foldl_app. cbn [foldl].
  rewrite foldl_index_fresh by done. apply lookup_insert_eq.
Qed.

Lemma foldl_index_Some l acc k x :
  foldl (λ m x, <[key x := x]> m) acc l !! k = Some x →
  x ∈ l ∧ key x = k ∨ acc !! k = Some x.
Proof.
  revert acc. induction l as [| y l IH]; intros acc; cbn [foldl]; [by right |].
  intros [[Hin Hk] | Hacc]%IH.
  - left. split; [by apply list_elem_of_further | done].
  - rewrite lookup_insert in Hacc. case_decide; [| by right].
    injection Hacc as <-. left. split; [apply list_elem_of_here | done].
Qed.
End index.

(** X1: [fetchAllInstances] fails exactly with the error of the listing.
    Otherwise the index has no entry for an id the listing lacks, every
    entry sits under its own id and comes from the listing, and of several
    instances with one id the last listed is kept. *)
Theorem fetchAllInstances_index (env : Environ) :
  match AllInstances env with
  | Fail err => fetchAllInstances env = Fail err
  | Ok insts =>
    ∃ m, fetchAllInstances env = Ok m ∧
      (∀ id, id ∉ Instance.Id <$> insts → m !! id = None) ∧
      (∀ id i, m !! id = Some i → i ∈ insts ∧ Instance.Id i = id) ∧
      (∀ l1 i l2, insts = l1 ++ i :: l2 →
                  Instance.Id i ∉ Instance.Id <$> l2 →
                  m !! Instance.Id i = Some i)
  end.
Proof.
  unfold fetchAllInstances. destruct (AllInstances env) as [insts | err]; [| done].
  eexists. split; [reflexivity |]. split; [| split].
  - intros id Hid. by rewrite (foldl_index_fresh Instance.Id).
  - intros id i [? | Hempty]%(foldl_index_Some Instance.Id); [done |].
    by rewrite lookup_empty in Hempty.
  - intros l1 i l2 -> Hfresh. by apply (foldl_index_last Instance.Id).
Qed.

(** X2: [fetchAllMachines] fails exactly with the error of the listing.
    Otherwise the keys of the map are the ids of the listed machines, every
    machine of the map sits under its own id, and when the listed ids are
    distinct every listed machine is in the map and the map has as many
    entries as the listing. *)
Theorem fetchAllMachines_index (st : State) :
  match AllMachines st with
  | Fail err => fetchAllMachines st = Fail err
  | Ok l =>
    ∃ v, fetchAllMachines st = Ok v ∧
      dom v = list_to_set (Machine.Id <$> l) ∧
      (∀ id m, v !! id = Some m → m ∈ l ∧ Machine.Id m = id) ∧
      (NoDup (Machine.Id <$> l) →
       size v = length l ∧ ∀ m, m ∈ l → v !! Machine.Id m = Some m)
  end.
Proof.
  unfold fetchAllMachines. destruct (AllMachines st) as [l | err]; [| done].
  eexists. split; [reflexivity |]. split; [| split].
  - rewrite foldl_insert_dom. set_solver.
  - intros id m [? | Hempty]%(foldl_index_Some Machine.Id); [done |].
    by rewrite lookup_empty in Hempty.
  - intros Hnodup. split.
    + rewrite <-size_dom, foldl_insert_dom, dom_empty_L, (left_id_L ∅ (∪)).
      rewrite size_list_to_set by done. apply length_fmap.
    + intros m (l1 & l2 & ->)%list_elem_of_split.
      apply (foldl_index_last Machine.Id).
      rewrite fmap_app, fmap_cons in Hnodup.
      apply NoDup_app in Hnodup as (_ & _ & Hnodup).
      by apply NoDup_cons in Hnodup as [? _].
Qed.

(** X3: [fetchAllServices] fails exactly with the error of the listing.
    Otherwise every service of the map sits under its own name and comes
    from the listing, a name the listing lacks has no entry, and of several
    services with one name the last listed is kept. *)
Theorem fetchAllServices_index (st : State) :
  match AllServices st with
  | Fail err => fetchAllServices st = Fail err
  | Ok l =>
    ∃ v, fetchAllServices st = Ok v ∧
      (∀ name, name ∉ Service.Name <$> l → v !! name = None) ∧
      (∀ name s, v !! name = Some s → s ∈ l ∧ Service.Name s = name) ∧
      (∀ l1 s l2, l = l1 ++ s :: l2 →
                  Service.Name s ∉ Service.Name <$> l2 →
                  v !! Service.Name s = Some s)
  end.
Proof.
  unfold fetchAllServices. destruct (AllServices st) as [l | err]; [| done].
  eexists. split; [reflexivity |]. split; [| split].
  - intros name Hname. by rewrite (foldl_index_fresh Service.Name).
  - intros name s [? | Hempty]%(foldl_index_Some Service.Name); [done |].
    by rewrite lookup_empty in Hempty.
  - intros l1 s l2 -> Hfresh. by apply (foldl_index_last Service.Name).
Qed.

(** ** One machine *)

(** X4: [processMachine] fails exactly when the DNS name cannot be
    resolved or, the name being resolved, the liveness query fails; the
    error of the DNS name comes first. *)
Theorem processMachine_Fail (machine : Machine.t) (instance : Instance.t)
    (err : error) :
  processMachine machine instance = Fail err ↔
  Instance.DNSName instance = Fail err ∨
  is_Ok (Instance.DNSName instance) ∧ Machine.AgentAlive machine = Fail err.
Proof.
  unfold processMachine.
  destruct (Instance.DNSName instance) as [dnsname | err1]; cbn.
  - destruct (Machine.AgentAlive machine) as [alive | err2]; cbn.
    + split; [done | by intros [? | [_ ?]]].
    + split; [intros [= ->]; right; split; [by eexists | done] |].
      by intros [? | [_ [= ->]]].
  - split; [intros [= ->]; by left | by intros [[= ->] | [[? ?] _]]].
Qed.

(** X5: an entry made by [processMachine] holds the DNS name of the
    instance, the identifier of the instance, and agent-state "running"
    exactly when the agent is alive; it has no other key.  Two machines
    with the same liveness get the same entry on the same instance. *)
Theorem processMachine_entry (machine : Machine.t) (instance : Instance.t)
    (e : gmap string value) :
  processMachine machine instance = Ok e →
  ∃ dnsname alive,
    Instance.DNSName instance = Ok dnsname ∧
    Machine.AgentAlive machine = Ok alive ∧
    e !! "dns-name" = Some (VString dnsname) ∧
    e !! "instance-id" = Some (VString (Instance.Id instance)) ∧
    e !! "agent-state" = (if alive then Some (VString "running") else None) ∧
    dom e = {[ "dns-name"; "instance-id" ]}
            ∪ (if alive then {[ "agent-state" ]} else ∅) ∧
    ∀ machine', Machine.AgentAlive machine' = Ok alive →
                processMachine machine' instance = Ok e.
Proof.
  intros (dnsname & alive & Hdns & Halive & ->)%processMachine_Ok.
  exists dnsname, alive. do 5 (split; [by destruct alive |]).
  split; [destruct alive; cbn; rewrite !dom_insert_L; set_solver |].
  intros machine' Halive'. unfold processMachine. rewrite Hdns, Halive'.
  by destruct alive.
Qed.

Lemma processMachine_entry_witness :
  ∃ dnsname alive,
    Instance.DNSName (dummyInstance 3) = Ok dnsname ∧
    Machine.AgentAlive machineDown = Ok alive ∧
    (<["instance-id" := VString "dummyenv-3"]>
       (<["dns-name" := VString "dummyenv-3.dns"]> (∅ : gmap string value)))
    !! "dns-name" = Some (VString dnsname) ∧
    alive = false.
Proof.
  destruct (processMachine_entry machineDown (dummyInstance 3)
              (<["instance-id" := VString "dummyenv-3"]>
                 (<["dns-name" := VString "dummyenv-3.dns"]> ∅)))
    as (dnsname & alive & Hdns & Halive & Hname & _); [reflexivity |].
  exists dnsname, alive. repeat (split; [assumption |]).
  cbn in Halive. by injection Halive.
Defined.

(** ** The machine loop, continued *)

Lemma machineEntry_Ok (instances : gmap string Instance.t) (m : Machine.t)
    (e : gmap string value) :
  machineEntry instances m = Ok e →
  (∃ msg, (Machine.InstanceId m).2 = Some (NotFoundError msg)) ∧
  e = {[ "instance-id" := VString "pending" ]}
  ∨ (∀ msg, (Machine.InstanceId m).2 ≠ Some (NotFoundError msg)) ∧
    ∃ instance, instances !! (Machine.InstanceId m).1 = Some instance ∧
                processMachine m instance = Ok e.
Proof.
  unfold machineEntry.
  destruct (Machine.InstanceId m) as [instid [[msg | msg] |]]; cbn.
  - intros [= <-]. left. split; [by exists msg | done].
  - destruct (instances !! instid) as [instance |]; [| done].
    intros He. right. split; [done | by exists instance].
  - destruct (instances !! instid) as [instance |]; [| done].
    intros He. right. split; [done | by exists instance].
Qed.

Lemma machineEntry_Fail (instances : gmap string Instance.t) (m : Machine.t)
    (err : error) :
  machineEntry instances m = Fail err →
  (∀ msg, (Machine.InstanceId m).2 ≠ Some (NotFoundError msg)) ∧
  (instances !! (Machine.InstanceId m).1 = None ∧
   err = instanceNotFound (Machine.InstanceId m).1 (Machine.Id m)
   ∨ ∃ instance, instances !! (Machine.InstanceId m).1 = Some instance ∧
                 processMachine m instance = Fail err).
Proof.
  unfold machineEntry.
  destruct (Machine.InstanceId m) as [instid [[msg | msg] |]]; cbn; [done | |].
  - destruct (instances !! instid) as [instance |].
    + intros He. split; [done |]. right. by exists instance.
    + intros [= <-]. split; [done |]. by left.
  - destruct (instances !! instid) as [instance |].
    + intros He. split; [done |]. right. by exists instance.
    + intros [= <-]. split; [done |]. by left.
Qed.

Lemma processMachinesLoop_Fail_inv (instances : gmap string Instance.t)
    (ms : list Machine.t) (r : gmap Z value) (err : error) :
  processMachinesLoop instances ms r = Fail err →
  ∃ m, m ∈ ms ∧ machineEntry instances m = Fail err.
Proof.
  revert r. induction ms as [| m ms IH]; intros r; cbn [processMachinesLoop];
    [done |].
  rewrite processMachinesStep_entry.
  destruct (machineEntry instances m) as [e | err'] eqn:He; cbn.
  - intros (m' & Hin & Hm')%IH. exists m'. split; [by apply list_elem_of_further | done].
  - intros [= ->]. exists m. split; [apply list_elem_of_here | done].
Qed.

Lemma processMachinesLoop_lookup_inv (instances : gmap string Instance.t)
    (ms : list Machine.t) (r res : gmap Z value) (k : Z) (v : value) :
  processMachinesLoop instances ms r = Ok res → res !! k = Some v →
  r !! k = Some v
  ∨ ∃ m e, m ∈ ms ∧ Machine.Id m = k ∧ machineEntry instances m = Ok e
           ∧ v = VStrMap e.
Proof.
  revert r. induction ms as [| m ms IH]; intros r; cbn [processMachinesLoop].
  - intros [= <-] Hk. by left.
  - rewrite processMachinesStep_entry.
    destruct (machineEntry instances m) as [e | err] eqn:He; cbn; [| done].
    intros Hloop Hk. destruct (IH _ Hloop Hk) as [Hr | (m' & e' & Hin & ? & ? & ?)].
    + rewrite lookup_insert in Hr. case_decide; [| by left].
      injection Hr as <-. right. exists m, e.
      split; [apply list_elem_of_here | done].
    + right. exists m', e'. split; [by apply list_elem_of_further | done].
Qed.

(** X6: an error returned by [processMachines] always stems from a machine
    of the map whose instance-id read did not signal "not found": either
    the index lacks the string that read returned, and the error is the
    inconsistency error for that string and the machine id, or the error
    is the one [processMachine] returned for the indexed instance. *)
Theorem processMachines_Fail_origin (rg : RangeOrder)
    (machines : gmap Z Machine.t) (instances : gmap string Instance.t)
    (err : error) :
  processMachines rg machines instances = Fail err →
  ∃ k m,
    machines !! k = Some m ∧
    (∀ msg, (Machine.InstanceId m).2 ≠ Some (NotFoundError msg)) ∧
    (instances !! (Machine.InstanceId m).1 = None ∧
     err = ErrorString ("instance " +:+ (Machine.InstanceId m).1
                        +:+ " for machine " +:+ Itoa (Machine.Id m)
                        +:+ " not found")
     ∨ ∃ instance, instances !! (Machine.InstanceId m).1 = Some instance ∧
                   processMachine m instance = Fail err).
Proof.
  intros (m & Hin & Hm)%processMachinesLoop_Fail_inv.
  apply elem_of_range_values in Hin as [k Hk].
  exists k, m. split; [done |]. by apply machineEntry_Fail.
Qed.

Lemma processMachines_Fail_origin_witness :
  ∃ k m,
    ({[ 0 := unreadableMachine ]} : gmap Z Machine.t) !! k = Some m ∧
    (∀ msg, (Machine.InstanceId m).2 ≠ Some (NotFoundError msg)) ∧
    ((∅ : gmap string Instance.t) !! (Machine.InstanceId m).1 = None ∧
     ErrorString "instance  for machine 0 not found"
     = ErrorString ("instance " +:+ (Machine.InstanceId m).1
                    +:+ " for machine " +:+ Itoa (Machine.Id m)
                    +:+ " not found")
     ∨ ∃ instance,
         (∅ : gmap string Instance.t) !! (Machine.InstanceId m).1 = Some instance ∧
         processMachine m instance
         = Fail (ErrorString "instance  for machine 0 not found")).
Proof.
  apply (processMachines_Fail_origin keyOrder {[ 0 := unreadableMachine ]} ∅).
  vm_compute. reflexivity.
Defined.

Lemma processMachines_Ok_any_order (rg rg' : RangeOrder)
    (machines : gmap Z Machine.t) (instances : gmap string Instance.t)
    (res : gmap Z value) :
  keyedById machines →
  processMachines rg machines instances = Ok res →
  processMachines rg' machines instances = Ok res.
Proof.
  intros Hkeyed Hres.
  assert (is_Ok (processMachines rg' machines instances)) as [res' Hres'].
  { apply processMachinesLoop_all_Ok, Forall_forall.
    intros m [k Hk]%elem_of_range_values.
    apply processMachinesLoop_Ok_all in Hres. rewrite Forall_forall in Hres.
    apply Hres, elem_of_range_values. by exists k. }
  rewrite Hres'. f_equal. apply map_eq. intros k.
  destruct (machines !! k) as [m |] eqn:Hk.
  - rewrite <-(Hkeyed _ _ Hk) in Hk |- *.
    destruct (processMachines_lookup rg _ _ Hkeyed _ _ Hres Hk) as (e & He & ->).
    destruct (processMachines_lookup rg' _ _ Hkeyed _ _ Hres' Hk) as (e' & He' & ->).
    congruence.
  - apply not_elem_of_dom in Hk.
    assert (res !! k = None) as ->
      by (apply not_elem_of_dom;
          by rewrite (processMachines_dom rg _ _ Hkeyed _ Hres)).
    apply not_elem_of_dom.
    by rewrite (processMachines_dom rg' _ _ Hkeyed _ Hres').
Qed.

(** X7: for a machine map built by [fetchAllMachines], the order in which
    the loop ranges over the map changes neither a successful result nor
    the fact that the loop fails (the error it fails with may change). *)
Theorem processMachines_any_order (rg rg' : RangeOrder) (st : State)
    (machines : gmap Z Machine.t) (instances : gmap string Instance.t) :
  fetchAllMachines st = Ok machines →
  (∀ res, processMachines rg machines instances = Ok res →
          processMachines rg' machines instances = Ok res) ∧
  (∀ err, processMachines rg machines instances = Fail err →
          ∃ err', processMachines rg' machines instances = Fail err').
Proof.
  intros Hkeyed%fetchAllMachines_keyed. split.
  - intros res. by apply processMachines_Ok_any_order.
  - intros err (m & [k Hk]%elem_of_range_values & Hm)%processMachinesLoop_Fail_inv.
    by eapply processMachines_fails.
Qed.

Lemma processMachines_any_order_witness :
  processMachines reverseOrder
                  {[ 7 := startedMachine 7 true None None; 8 := pendingMachine 8 ]}
                  {[ "dummyenv-7" := dummyInstance 7 ]}
  = Ok (<[8 := VStrMap {[ "instance-id" := VString "pending" ]}]>
          {[ 7 := VStrMap
               (<["agent-state" := VString "running"]>
                  (<["instance-id" := VString "dummyenv-7"]>
                     (<["dns-name" := VString "dummyenv-7.dns"]> ∅))) ]}).
Proof.
  apply (processMachines_any_order keyOrder reverseOrder
           {| AllMachines := Ok [startedMachine 7 true None None; pendingMachine 8];
              AllServices := Ok [] |}); vm_compute; reflexivity.
Defined.

(** X8: with the index built by [fetchAllInstances], the entry of a machine
    whose instance-id read did not signal "not found" shows, under
    instance-id, the very string that read returned, next to a DNS name. *)
Theorem entry_instance_id_is_recorded (rg : RangeOrder) (env : Environ)
    (st : State) (instances : gmap string Instance.t)
    (machines : gmap Z Machine.t) (res : gmap Z value) (m : Machine.t) :
  fetchAllInstances env = Ok instances →
  fetchAllMachines st = Ok machines →
  processMachines rg machines instances = Ok res →
  machines !! Machine.Id m = Some m →
  (∀ msg, (Machine.InstanceId m).2 ≠ Some (NotFoundError msg)) →
  ∃ e dnsname,
    res !! Machine.Id m = Some (VStrMap e) ∧
    e !! "instance-id" = Some (VString (Machine.InstanceId m).1) ∧
    e !! "dns-name" = Some (VString dnsname).
Proof.
  intros Hinsts Hkeyed%fetchAllMachines_keyed Hres Hm Hread.
  destruct (processMachines_lookup rg _ _ Hkeyed _ _ Hres Hm) as (e & He & Hlook).
  apply machineEntry_Ok in He as [[[msg Hmsg] _] | [_ (instance & Hinst & He)]];
    [by destruct (Hread msg) |].
  apply processMachine_Ok in He as (dnsname & alive & _ & _ & ->).
  assert (Instance.Id instance = (Machine.InstanceId m).1) as Hid.
  { unfold fetchAllInstances in Hinsts.
    destruct (AllInstances env) as [insts |]; [| done].
    injection Hinsts as <-.
    apply (foldl_index_Some Instance.Id) in Hinst as [[_ ?] | Hempty]; [done |].
    by rewrite lookup_empty in Hempty. }
  rewrite Hid in Hlook. eexists _, dnsname.
  split; [exact Hlook |]. by destruct alive.
Qed.

Lemma entry_instance_id_is_recorded_witness :
  ∃ e dnsname,
    (<[8 := VStrMap {[ "instance-id" := VString "pending" ]}]>
       ({[ 7 := VStrMap
             (<["agent-state" := VString "running"]>
                (<["instance-id" := VString "dummyenv-7"]>
                   (<["dns-name" := VString "dummyenv-7.dns"]> ∅))) ]}
        : gmap Z value)) !! 7 = Some (VStrMap e) ∧
    e !! "instance-id" = Some (VString "dummyenv-7") ∧
    e !! "dns-name" = Some (VString dnsname).
Proof.
  apply (entry_instance_id_is_recorded keyOrder
           {| AllInstances := Ok [dummyInstance 7] |}
           {| AllMachines := Ok [startedMachine 7 true None None; pendingMachine 8];
              AllServices := Ok [] |}
           {[ "dummyenv-7" := dummyInstance 7 ]}
           {[ 7 := startedMachine 7 true None None; 8 := pendingMachine 8 ]}
           _ (startedMachine 7 true None None));
    [vm_compute; reflexivity .. | by intros msg].
Defined.

(** X9: every value of a successful result of [processMachines] is the
    entry of a machine of the map: a string-keyed map with an instance-id
    key and no key besides instance-id, dns-name and agent-state; it is
    the pending entry or it has a dns-name. *)
Theorem processMachines_entries (rg : RangeOrder) (machines : gmap Z Machine.t)
    (instances : gmap string Instance.t) (res : gmap Z value) (k : Z) (v : value) :
  processMachines rg machines instances = Ok res →
  res !! k = Some v →
  ∃ m e,
    (∃ k', machines !! k' = Some m) ∧ Machine.Id m = k ∧ v = VStrMap e ∧
    is_Some (e !! "instance-id") ∧
    dom e ⊆ {[ "instance-id"; "dns-name"; "agent-state" ]} ∧
    (e = {[ "instance-id" := VString "pending" ]} ∨ is_Some (e !! "dns-name")).
Proof.
  intros Hres Hk.
  destruct (processMachinesLoop_lookup_inv _ _ _ _ _ _ Hres Hk)
    as [Hempty | (m & e & Hin & Hid & He & ->)];
    [by rewrite lookup_empty in Hempty |].
  exists m, e. split; [by apply elem_of_range_values in Hin |].
  do 2 (split; [done |]).
  apply machineEntry_Ok in He as [[_ ->] | [_ (instance & _ & He)]].
  - split; [by eexists |]. split; [| by left].
    rewrite dom_singleton_L. set_solver.
  - apply processMachine_Ok in He as (dnsname & alive & _ & _ & ->).
    split; [destruct alive; by eexists |].
    split; [| right; destruct alive; by eexists].
    destruct alive; cbn; rewrite !dom_insert_L; set_solver.
Qed.

Lemma processMachines_entries_witness :
  ∃ m e,
    (∃ k', ({[ 8 := pendingMachine 8 ]} : gmap Z Machine.t) !! k' = Some m) ∧
    Machine.Id m = 8 ∧
    VStrMap {[ "instance-id" := VString "pending" ]} = VStrMap e ∧
    is_Some (e !! "instance-id") ∧
    dom e ⊆ {[ "instance-id"; "dns-name"; "agent-state" ]} ∧
    (e = {[ "instance-id" := VString "pending" ]} ∨ is_Some (e !! "dns-name")).
Proof.
  apply (processMachines_entries keyOrder {[ 8 := pendingMachine 8 ]} ∅
           {[ 8 := VStrMap {[ "instance-id" := VString "pending" ]} ]});
    vm_compute; reflexivity.
Defined.

(** ** Services, continued *)

(** X10: [processService] fails exactly when the charm cannot be read or,
    the charm being read, the exposure flag cannot; the error of the charm
    comes first. *)
Theorem processService_Fail (s : Service.t) (err : error) :
  processService s = Fail err ↔
  Service.Charm s = Fail err ∨
  is_Ok (Service.Charm s) ∧ Service.IsExposed s = Fail err.
Proof.
  unfold processService.
  destruct (Service.Charm s) as [ch | err1]; cbn.
  - destruct (Service.IsExposed s) as [exposed | err2]; cbn.
    + split; [done | by intros [? | [_ ?]]].
    + split; [intros [= ->]; right; split; [by eexists | done] |].
      by intros [? | [_ [= ->]]].
  - split; [intros [= ->]; by left | by intros [[= ->] | [[? ?] _]]].
Qed.

Lemma range_keys `{Countable K} {V} (key : V → K) (rg : RangeOrder)
    (m : gmap K V) :
  (∀ k v, m !! k = Some v → key v = k) →
  key <$> (range rg m).*2 = (range rg m).*1.
Proof.
  intros Hkeyed. rewrite <-list_fmap_compose. apply list_fmap_ext.
  intros i [k v] Hi. cbn. apply Hkeyed, elem_of_range with rg.
  by eapply list_elem_of_lookup_2.
Qed.

Lemma fetchAllServices_keyed (st : State) (services : gmap string Service.t)
    (name : string) (s : Service.t) :
  fetchAllServices st = Ok services → services !! name = Some s →
  Service.Name s = name.
Proof.
  unfold fetchAllServices. destruct (AllServices st) as [l |]; [| done].
  intros [= <-] [[_ ?] | Hempty]%(foldl_index_Some Service.Name); [done |].
  by rewrite lookup_empty in Hempty.
Qed.

Section service_loop.
Implicit Types (ss : list Service.t) (r res : gmap string value) (s : Service.t).

Lemma processServicesLoop_Ok_all ss r res :
  processServicesLoop ss r = Ok res → Forall (λ s, is_Ok (processService s)) ss.
Proof.
  revert r. induction ss as [| s ss IH]; intros r; [constructor |].
  cbn [processServicesLoop].
  destruct (processService s) as [e | err] eqn:He; cbn; [| done].
  intros Hloop. constructor; [by exists e | by eapply IH].
Qed.

Lemma processServicesLoop_all_Ok ss r :
  Forall (λ s, is_Ok (processService s)) ss → is_Ok (processServicesLoop ss r).
Proof.
  intros Hall. revert r. induction Hall as [| s ss [e He] _ IH]; intros r.
  - by exists r.
  - cbn [processServicesLoop]. rewrite He. apply IH.
Qed.

Lemma processServicesLoop_Fail_inv ss r err :
  processServicesLoop ss r = Fail err → ∃ s, s ∈ ss ∧ processService s = Fail err.
Proof.
  revert r. induction ss as [| s ss IH]; intros r; cbn [processServicesLoop];
    [done |].
  destruct (processService s) as [e | err'] eqn:He; cbn.
  - intros (s' & Hin & Hs')%IH. exists s'. split; [by apply list_elem_of_further | done].
  - intros [= ->]. exists s. split; [apply list_elem_of_here | done].
Qed.

Lemma processServicesLoop_fails ss r s err :
  s ∈ ss → processService s = Fail err →
  ∃ err', processServicesLoop ss r = Fail err'.
Proof.
  intros Hin Hs.
  destruct (processServicesLoop ss r) as [res | err'] eqn:Hloop; [| by exists err'].
  apply processServicesLoop_Ok_all in Hloop.
  rewrite Forall_forall in Hloop. destruct (Hloop s Hin) as [e He]. congruence.
Qed.

Lemma processServicesLoop_dom ss r res :
  processServicesLoop ss r = Ok res →
  dom res = dom r ∪ list_to_set (Service.Name <$> ss).
Proof.
  revert r. induction ss as [| s ss IH]; intros r; cbn [processServicesLoop].
  - intros [= <-]. set_solver.
  - destruct (processService s) as [e | err]; cbn; [| done].
    intros Hloop. rewrite (IH _ Hloop), dom_insert_L. set_solver.
Qed.

Lemma processServicesLoop_lookup_other ss r res name :
  processServicesLoop ss r = Ok res →
  name ∉ Service.Name <$> ss → res !! name = r !! name.
Proof.
  revert r. induction ss as [| s ss IH]; intros r; cbn [processServicesLoop].
  - by intros [= <-].
  - destruct (processService s) as [e | err]; cbn; [| done].
    intros Hloop Hname. rewrite not_elem_of_cons in Hname.
    destruct Hname as [Hne Hname]. rewrite (IH _ Hloop Hname).
    by rewrite lookup_insert_ne.
Qed.

Lemma processServicesLoop_lookup ss r res s :
  processServicesLoop ss r = Ok res →
  NoDup (Service.Name <$> ss) → s ∈ ss →
  ∃ e, processService s = Ok e ∧ res !! Service.Name s = Some (VStrMap e).
Proof.
  revert r. induction ss as [| s' ss IH]; intros r; cbn [processServicesLoop].
  - intros _ _ Hin. by apply elem_of_nil in Hin.
  - destruct (processService s') as [e | err] eqn:He; cbn; [| done].
    rewrite NoDup_cons, elem_of_cons.
    intros Hloop [Hfresh Hnodup] [-> | Hin].
    + exists e. split; [done |].
      rewrite (processServicesLoop_lookup_other _ _ _ _ Hloop Hfresh).
      by rewrite lookup_insert_eq.
    + by eapply IH.
Qed.
End service_loop.

Lemma processServices_lookup (rg : RangeOrder) (st : State)
    (services : gmap string Service.t) (res : gmap string value)
    (name : string) (s : Service.t) :
  fetchAllServices st = Ok services →
  processServices rg services = Ok res →
  services !! name = Some s →
  ∃ e, processService s = Ok e ∧ res !! name = Some (VStrMap e).
Proof.
  intros Hfetch Hres Hs.
  rewrite <-(fetchAllServices_keyed _ _ _ _ Hfetch Hs).
  eapply processServicesLoop_lookup; [exact Hres | |].
  - rewrite (range_keys Service.Name); [apply NoDup_fst_range |].
    intros ??. by apply (fetchAllServices_keyed st).
  - apply elem_of_range_values. by exists name.
Qed.

Lemma processServices_dom (rg : RangeOrder) (st : State)
    (services : gmap string Service.t) (res : gmap string value) :
  fetchAllServices st = Ok services →
  processServices rg services = Ok res → dom res = dom services.
Proof.
  intros Hfetch Hres. rewrite (processServicesLoop_dom _ _ _ Hres).
  rewrite (range_keys Service.Name)
    by (intros ??; by apply (fetchAllServices_keyed st)).
  rewrite dom_empty_L, (left_id_L ∅ (∪)).
  apply set_eq. intros name.
  rewrite elem_of_list_to_set, list_elem_of_fmap, elem_of_dom. split.
  - intros ([name' s] & -> & Hin). apply elem_of_range in Hin. by exists s.
  - intros [s Hs]. exists (name, s). by rewrite elem_of_range.
Qed.

Lemma processServices_Ok_any_order (rg rg' : RangeOrder) (st : State)
    (services : gmap string Service.t) (res : gmap string value) :
  fetchAllServices st = Ok services →
  processServices rg services = Ok res →
  processServices rg' services = Ok res.
Proof.
  intros Hfetch Hres.
  assert (is_Ok (processServices rg' services)) as [res' Hres'].
  { apply processServicesLoop_all_Ok, Forall_forall.
    intros s [name Hs]%elem_of_range_values.
    apply processServicesLoop_Ok_all in Hres. rewrite Forall_forall in Hres.
    apply Hres, elem_of_range_values. by exists name. }
  rewrite Hres'. f_equal. apply map_eq. intros name.
  destruct (services !! name) as [s |] eqn:Hs.
  - destruct (processServices_lookup rg st _ _ _ _ Hfetch Hres Hs) as (e & He & ->).
    destruct (processServices_lookup rg' st _ _ _ _ Hfetch Hres' Hs) as (e' & He' & ->).
    congruence.
  - apply not_elem_of_dom in Hs.
    assert (res !! name = None) as ->
      by (apply not_elem_of_dom; by rewrite (processServices_dom rg st _ _ Hfetch Hres)).
    apply not_elem_of_dom.
    by rewrite (processServices_dom rg' st _ _ Hfetch Hres').
Qed.

(** X11: for a service map built by [fetchAllServices], a successful
    result of [processServices] has exactly the names of the map as keys,
    and under each name the entry made of the name of the charm and the
    exposure flag of that service, and nothing else. *)
Theorem processServices_result (rg : RangeOrder) (st : State)
    (services : gmap string Service.t) (res : gmap string value) :
  fetchAllServices st = Ok services →
  processServices rg services = Ok res →
  dom res = dom services ∧
  ∀ name s, services !! name = Some s →
    ∃ ch exposed,
      Service.Charm s = Ok ch ∧ Service.IsExposed s = Ok exposed ∧
      res !! name
      = Some (VStrMap (<["exposed" := VBool exposed]>
                         (<["charm" := VString (Charm.MetaName ch)]> ∅))).
Proof.
  intros Hfetch Hres. split; [by eapply processServices_dom |].
  intros name s Hs.
  destruct (processServices_lookup rg st _ _ _ _ Hfetch Hres Hs) as (e & He & ->).
  apply processService_Ok in He as (ch & exposed & ? & ? & ->).
  by exists ch, exposed.
Qed.

Lemma processServices_result_witness :
  ∃ ch exposed,
    Service.Charm dummyService = Ok ch ∧
    Service.IsExposed dummyService = Ok exposed ∧
    ({[ "dummy-service" :=
          VStrMap (<["exposed" := VBool false]> (<["charm" := VString "dummy"]> ∅)) ]}
     : gmap string value) !! "dummy-service"
    = Some (VStrMap (<["exposed" := VBool exposed]>
                       (<["charm" := VString (Charm.MetaName ch)]> ∅))).
Proof.
  destruct (processServices_result keyOrder
              {| AllMachines := Ok []; AllServices := Ok [dummyService] |}
              {[ "dummy-service" := dummyService ]}
              {[ "dummy-service" :=
                   VStrMap (<["exposed" := VBool false]>
                              (<["charm" := VString "dummy"]> ∅)) ]})
    as [_ Hentry]; [vm_compute; reflexivity .. |].
  apply Hentry. vm_compute. reflexivity.
Defined.

(** X12: for a service map built by [fetchAllServices], the order in which
    the loop ranges over the map changes neither a successful result nor
    the fact that the loop fails; a failure is always the error that
    [processService] returns for a service of the map. *)
Theorem processServices_any_order (rg rg' : RangeOrder) (st : State)
    (services : gmap string Service.t) :
  fetchAllServices st = Ok services →
  (∀ res, processServices rg services = Ok res →
          processServices rg' services = Ok res) ∧
  (∀ err, processServices rg services = Fail err →
          (∃ name s, services !! name = Some s ∧ processService s = Fail err) ∧
          ∃ err', processServices rg' services = Fail err').
Proof.
  intros Hfetch. split.
  - intros res. by apply (processServices_Ok_any_order rg rg' st).
  - intros err (s & [name Hs]%elem_of_range_values & Herr)%processServicesLoop_Fail_inv.
    split; [by exists name, s |].
    eapply processServicesLoop_fails; [| exact Herr].
    apply elem_of_range_values. by exists name.
Qed.

Lemma processServices_any_order_witness :
  processServices reverseOrder
                  {[ "dummy-service" := dummyService;
                     "exposed-service" :=
                       {| Service.Name := "exposed-service";
                          Service.Charm := Ok dummyCharm;
                          Service.IsExposed := Ok true;
                          Service.AllUnits := Ok [] |} ]}
  = Ok (<["exposed-service" :=
            VStrMap (<["exposed" := VBool true]> (<["charm" := VString "dummy"]> ∅))]>
          {[ "dummy-service" :=
               VStrMap (<["exposed" := VBool false]>
                          (<["charm" := VString "dummy"]> ∅)) ]}).
Proof.
  apply (processServices_any_order keyOrder reverseOrder
           {| AllMachines := Ok [];
              AllServices := Ok [dummyService;
                                 {| Service.Name := "exposed-service";
                                    Service.Charm := Ok dummyCharm;
                                    Service.IsExposed := Ok true;
                                    Service.AllUnits := Ok [] |}] |});
    vm_compute; reflexivity.
Defined.

(** ** The run, continued *)

Lemma Run_Emit_intro (rg : RangeOrder) (conn : Conn) (outName : string)
    (instances : gmap string Instance.t) (st : State)
    (machines : gmap Z Machine.t) (services : gmap string Service.t)
    (ms : gmap Z value) (ss : gmap string value) :
  fetchAllInstances (ConnEnviron conn) = Ok instances →
  ConnState conn = Ok st →
  fetchAllMachines st = Ok machines →
  fetchAllServices st = Ok services →
  processMachines rg machines instances = Ok ms →
  processServices rg services = Ok ss →
  Run rg (Ok conn) outName
  = Emit (if decide (outName = "json")
          then Jsonified (<["machines" := kmap Itoa ms]> (<["services" := ss]> ∅))
          else Plain (<["services" := VStrMap ss]> (<["machines" := VIntMap ms]> ∅))).
Proof.
  intros Hinsts Hst Hmachines Hservices Hms Hss. unfold Run.
  rewrite Hinsts, Hst, Hmachines, Hservices, Hms, Hss. cbv zeta.
  rewrite jsonify_result. by case_decide.
Qed.

Lemma Run_Emit_any_order (rg rg' : RangeOrder) (NewConn : result Conn)
    (outName : string) (w : written) :
  Run rg NewConn outName = Emit w → Run rg' NewConn outName = Emit w.
Proof.
  intros (conn & instances & st & machines & services & ms & ss & -> & Hinsts
          & Hst & Hmachines & Hservices & Hms & Hss & ->)%Run_Emit_inv.
  apply Run_Emit_intro with instances st machines services; try done.
  - apply processMachines_Ok_any_order with rg; [| done].
    by eapply fetchAllMachines_keyed.
  - by apply (processServices_Ok_any_order rg rg' st).
Qed.

(** X13: what [Run] hands to the formatter does not depend on the order in
    which the maps are ranged over, and neither does the fact that it
    returns an error of its own. *)
Theorem Run_any_order (rg rg' : RangeOrder) (NewConn : result Conn)
    (outName : string) :
  (∀ w, Run rg NewConn outName = Emit w → Run rg' NewConn outName = Emit w) ∧
  (∀ err, Run rg NewConn outName = Abort err →
          ∃ err', Run rg' NewConn outName = Abort err').
Proof.
  split; [intros w; apply Run_Emit_any_order |].
  intros err Hrun.
  destruct (Run rg' NewConn outName) as [err' | | w] eqn:Hrun'.
  - by exists err'.
  - by destruct (Run_no_panic rg' NewConn outName).
  - apply (Run_Emit_any_order rg' rg) in Hrun'. congruence.
Qed.

(** X15: [Run] never panics, since the two type assertions of [jsonify]
    always succeed on the map that [Run] builds: it returns an error of
    its own or it reaches the formatter. *)
Theorem Run_Abort_or_Emit (rg : RangeOrder) (NewConn : result Conn)
    (outName : string) :
  Run rg NewConn outName ≠ Panic ∧
  ((∃ err, Run rg NewConn outName = Abort err) ∨
   (∃ w, Run rg NewConn outName = Emit w)).
Proof.
  pose proof (Run_no_panic rg NewConn outName) as Hpanic.
  split; [done |].
  destruct (Run rg NewConn outName) as [err | | w]; [left | done | right];
    by eexists.
Qed.

(** X14: the output format decides only the last step.  An error is
    returned under one format name exactly when it is returned under any
    other; all names but "json" hand over the same map; and under "json"
    the formatter gets the [jsonify] of the map it gets otherwise. *)
Theorem Run_formats (rg : RangeOrder) (NewConn : result Conn)
    (outName outName' : string) :
  (∀ err, Run rg NewConn outName = Abort err →
          Run rg NewConn outName' = Abort err) ∧
  (outName ≠ "json" → outName' ≠ "json" →
   Run rg NewConn outName = Run rg NewConn outName') ∧
  (∀ r, outName ≠ "json" → Run rg NewConn outName = Emit (Plain r) →
        ∃ j, jsonify rg r = Some j ∧ Run rg NewConn "json" = Emit (Jsonified j)) ∧
  (∀ w, Run rg NewConn "json" = Emit w → ∃ j, w = Jsonified j) ∧
  (∀ w, outName ≠ "json" → Run rg NewConn outName = Emit w → ∃ r, w = Plain r).
Proof.
  unfold Run.
  destruct NewConn as [conn |]; [| by repeat split].
  destruct (fetchAllInstances (ConnEnviron conn)) as [instances |]; [| by repeat split].
  destruct (ConnState conn) as [st |]; [| by repeat split].
  destruct (fetchAllMachines st) as [machines |]; [| by repeat split].
  destruct (fetchAllServices st) as [services |]; [| by repeat split].
  destruct (processMachines rg machines instances) as [ms |]; [| by repeat split].
  destruct (processServices rg services) as [ss |]; [| by repeat split].
  cbv zeta. rewrite jsonify_result.
  split; [by repeat case_decide |].
  split; [intros ??; by rewrite !decide_False |].
  split.
  { intros r Hne. rewrite decide_False by done. intros [= <-].
    rewrite jsonify_result. eexists. split; [done |]. by rewrite decide_True. }
  split.
  - intros w. rewrite decide_True by done. intros [= <-]. by eexists.
  - intros w Hne. rewrite decide_False by done. intros [= <-]. by eexists.
Qed.

(** X17: once the fetches have succeeded, an error of [processMachines] is
    the error of the run whatever the services are, and with the machines
    processed an error of [processServices] is the error of the run. *)
Theorem Run_processing_failures (rg : RangeOrder) (conn : Conn)
    (outName : string) (instances : gmap string Instance.t) (st : State)
    (machines : gmap Z Machine.t) (services : gmap string Service.t) :
  fetchAllInstances (ConnEnviron conn) = Ok instances →
  ConnState conn = Ok st →
  fetchAllMachines st = Ok machines →
  fetchAllServices st = Ok services →
  (∀ err, processMachines rg machines instances = Fail err →
          Run rg (Ok conn) outName = Abort err) ∧
  (∀ err, is_Ok (processMachines rg machines instances) →
          processServices rg services = Fail err →
          Run rg (Ok conn) outName = Abort err).
Proof.
  intros Hinsts Hst Hmachines Hservices. unfold Run.
  rewrite Hinsts, Hst, Hmachines, Hservices. split.
  - by intros err ->.
  - by intros err [ms ->] ->.
Qed.

Lemma Run_processing_failures_witness :
  Run keyOrder
      (Ok (connOf [] [pendingMachine 0]
                  [{| Service.Name := "broken";
                      Service.Charm := Fail (ErrorString "no charm");
                      Service.IsExposed := Ok true;
                      Service.AllUnits := Ok [] |}])) "json"
  = Abort (ErrorString "no charm").
Proof.
  eapply (Run_processing_failures keyOrder); [reflexivity .. | | ].
  - by eexists.
  - vm_compute. reflexivity.
Defined.

(** X18: once the fetches have succeeded, the run reaches the formatter
    exactly when the loop body succeeds on every machine of the map and
    [processService] succeeds on every service of the map. *)
Theorem Run_Emit_iff (rg : RangeOrder) (conn : Conn) (outName : string)
    (instances : gmap string Instance.t) (st : State)
    (machines : gmap Z Machine.t) (services : gmap string Service.t) :
  fetchAllInstances (ConnEnviron conn) = Ok instances →
  ConnState conn = Ok st →
  fetchAllMachines st = Ok machines →
  fetchAllServices st = Ok services →
  (∃ w, Run rg (Ok conn) outName = Emit w) ↔
  (∀ k m, machines !! k = Some m →
          ∀ r, is_Ok (processMachinesStep instances r m)) ∧
  (∀ name s, services !! name = Some s → is_Ok (processService s)).
Proof.
  intros Hinsts Hst Hmachines Hservices. split.
  - intros [w (conn' & instances' & st' & machines' & services' & ms & ss
                & [= <-] & Hinsts' & Hst' & Hmachines' & Hservices' & Hms & Hss & _)
                 %Run_Emit_inv].
    assert (instances' = instances) as -> by congruence.
    assert (st' = st) as -> by congruence.
    assert (machines' = machines) as -> by congruence.
    assert (services' = services) as -> by congruence.
    split.
    + intros k m Hk r. rewrite processMachinesStep_entry.
      apply processMachinesLoop_Ok_all in Hms. rewrite Forall_forall in Hms.
      destruct (Hms m) as [e ->]; [apply elem_of_range_values; by exists k |].
      by eexists.
    + intros name s Hs.
      apply processServicesLoop_Ok_all in Hss. rewrite Forall_forall in Hss.
      apply Hss, elem_of_range_values. by exists name.
  - intros [Hms Hss].
    assert (is_Ok (processMachines rg machines instances)) as [ms Hms'].
    { apply processMachinesLoop_all_Ok, Forall_forall.
      intros m [k Hk]%elem_of_range_values.
      destruct (Hms k m Hk ∅) as [r Hr]. rewrite processMachinesStep_entry in Hr.
      destruct (machineEntry instances m) as [e |]; [by exists e | done]. }
    assert (is_Ok (processServices rg services)) as [ss Hss'].
    { apply processServicesLoop_all_Ok, Forall_forall.
      intros s [name Hs]%elem_of_range_values. by eapply Hss. }
    eexists. by eapply Run_Emit_intro.
Qed.

Lemma Run_Emit_iff_witness :
  ∃ w, Run keyOrder (Ok mixedConn) "yaml" = Emit w.
Proof.
  eapply (Run_Emit_iff keyOrder mixedConn "yaml"); [reflexivity .. |].
  split.
  - intros k m Hk r. cbn [foldl] in Hk.
    rewrite !lookup_insert_Some, lookup_empty in Hk.
    destruct Hk as [[_ <-] | [_ [[_ <-] | [_ ?]]]]; [| | done];
      rewrite processMachinesStep_entry; by eexists.
  - intros name s Hs. cbn [foldl] in Hs. by rewrite lookup_empty in Hs.
Defined.

(** X19: with no machine and no service listed, the run hands over the two
    empty mappings, whatever the provider lists. *)
Theorem Run_empty_listings (rg : RangeOrder) (conn : Conn) (st : State)
    (outName : string) :
  is_Ok (AllInstances (ConnEnviron conn)) →
  ConnState conn = Ok st →
  AllMachines st = Ok [] →
  AllServices st = Ok [] →
  Run rg (Ok conn) outName
  = Emit (if decide (outName = "json")
          then Jsonified (<["machines" := ∅]> (<["services" := ∅]> ∅))
          else Plain (<["services" := VStrMap ∅]> (<["machines" := VIntMap ∅]> ∅))).
Proof.
  intros [insts Hinsts] Hst Hmachines Hservices.
  assert (∀ `{Countable K} V, range rg (∅ : gmap K V) = []) as Hrange.
  { intros K ?? V. apply Permutation_nil_r.
    by rewrite (range_perm rg), map_to_list_empty. }
  rewrite (Run_Emit_intro rg conn outName
             (foldl (λ m i, <[Instance.Id i := i]> m) ∅ insts) st ∅ ∅ ∅ ∅).
  - by rewrite kmap_empty.
  - unfold fetchAllInstances. by rewrite Hinsts.
  - done.
  - unfold fetchAllMachines. by rewrite Hmachines.
  - unfold fetchAllServices. by rewrite Hservices.
  - unfold processMachines. by rewrite Hrange.
  - unfold processServices. by rewrite Hrange.
Qed.

Lemma Run_empty_listings_witness :
  Run reverseOrder (Ok (connOf [dummyInstance 5] [] [])) "json"
  = Emit (Jsonified (<["machines" := ∅]> (<["services" := ∅]> ∅))).
Proof.
  apply (Run_empty_listings reverseOrder (connOf [dummyInstance 5] [] [])
           {| AllMachines := Ok []; AllServices := Ok [] |} "json");
    [by eexists | reflexivity ..].
Defined.

(** ** Key normalisation, continued *)

Lemma jsonify_cases (rg : RangeOrder) (r : gmap string value) :
  jsonify rg r
  = match r !! "services", r !! "machines" with
    | Some (VStrMap ss), Some (VIntMap ms) =>
      Some (<["machines" := kmap Itoa ms]> (<["services" := ss]> ∅))
    | _, _ => None
    end.
Proof.
  destruct (r !! "services") as [[| | ss |] |] eqn:Hss;
    try (unfold jsonify; by rewrite Hss).
  destruct (r !! "machines") as [[| | | ms] |] eqn:Hms;
    try (unfold jsonify; by rewrite Hss, Hms).
  by apply jsonify_Some.
Qed.

(** X20: [jsonify] panics exactly when the key services does not hold a
    string-keyed map or the key machines does not hold an integer-keyed
    map (a missing key included). *)
Theorem jsonify_panics (rg : RangeOrder) (r : gmap string value) :
  jsonify rg r = None ↔
  (∀ ss, r !! "services" ≠ Some (VStrMap ss)) ∨
  (∀ ms, r !! "machines" ≠ Some (VIntMap ms)).
Proof.
  rewrite jsonify_cases.
  destruct (r !! "services") as [[| | ss |] |];
    try (split; [intros _; by left | done]).
  destruct (r !! "machines") as [[| | | ms] |];
    try (split; [intros _; by right | done]).
  split; [done |]. intros [Hss | Hms]; [by destruct (Hss ss) | by destruct (Hms ms)].
Qed.

(** X21: [jsonify] loses nothing: two maps with the same string-keyed
    representation have the same services and the same machines, whatever
    the orders in which the machines were ranged over. *)
Theorem jsonify_lossless (rg rg' : RangeOrder) (r1 r2 : gmap string value)
    (j : gmap string (gmap string value)) :
  jsonify rg r1 = Some j → jsonify rg' r2 = Some j →
  r1 !! "services" = r2 !! "services" ∧ r1 !! "machines" = r2 !! "machines".
Proof.
  rewrite !jsonify_cases.
  destruct (r1 !! "services") as [[| | ss1 |] |]; try done.
  destruct (r1 !! "machines") as [[| | | ms1] |]; try done.
  destruct (r2 !! "services") as [[| | ss2 |] |]; try done.
  destruct (r2 !! "machines") as [[| | | ms2] |]; try done.
  intros <-%(inj Some) Heq%(inj Some).
  assert (kmap Itoa ms2 =@{gmap string value} kmap Itoa ms1) as Hms.
  { pose proof (f_equal (λ m, m !! "machines") Heq) as Hlook. cbv beta in Hlook.
    rewrite !lookup_insert_eq in Hlook. by apply (inj Some) in Hlook. }
  apply (inj (kmap Itoa)) in Hms as ->.
  assert (ss2 = ss1) as ->; [| done].
  pose proof (f_equal (λ m, m !! "services") Heq) as Hlook. cbv beta in Hlook.
  rewrite !lookup_insert_ne, !lookup_insert_eq in Hlook by done.
  by apply (inj Some) in Hlook.
Qed.

Lemma jsonify_lossless_witness :
  (<["services" := VStrMap ∅]>
     (<["machines" := VIntMap {[ 7 := VString "seven" ]}]>
        (<["extra" := VBool true]> (∅ : gmap string value)))) !! "machines"
  = (<["services" := VStrMap ∅]>
       (<["machines" := VIntMap {[ 7 := VString "seven" ]}]>
          (∅ : gmap string value))) !! "machines".
Proof.
  eapply (jsonify_lossless keyOrder reverseOrder
            (<["services" := VStrMap ∅]>
               (<["machines" := VIntMap {[ 7 := VString "seven" ]}]>
                  (<["extra" := VBool true]> ∅)))
            (<["services" := VStrMap ∅]>
               (<["machines" := VIntMap {[ 7 := VString "seven" ]}]> ∅)));
    vm_compute; reflexivity.
Defined.

(** X22: [jsonify] reads the keys services and machines only, and its
    result does not depend on the order in which the machines are ranged
    over. *)
Theorem jsonify_two_keys (rg rg' : RangeOrder) (r1 r2 : gmap string value) :
  r1 !! "services" = r2 !! "services" →
  r1 !! "machines" = r2 !! "machines" →
  jsonify rg r1 = jsonify rg' r2.
Proof. intros Hss Hms. by rewrite !jsonify_cases, Hss, Hms. Qed.

Lemma jsonify_two_keys_witness :
  jsonify keyOrder
          (<["services" := VStrMap ∅]>
             (<["machines" := VIntMap {[ 7 := VString "seven"; 8 := VBool true ]}]>
                (<["extra" := VBool true]> ∅)))
  = jsonify reverseOrder
            (<["services" := VStrMap ∅]>
               (<["machines" := VIntMap {[ 7 := VString "seven"; 8 := VBool true ]}]> ∅)).
Proof.
  apply (jsonify_two_keys keyOrder reverseOrder); vm_compute; reflexivity.
Defined.
